(** * ScriptExecutor (lpm_kernel/api/common/script_executor.py)

    A shallow embedding of the [ScriptExecutor] class: its constructor, the
    command construction, the spawn, the output-draining loop and the
    translation of the child's return code into a result dictionary.

    Python values are modelled as follows.
    - [str] is a sequence of Unicode code points ([pystr]).
    - [int] is [Z].
    - [os.environ] is a finite map.
    - The file system is a tree of directories and regular files, named by
      the path from the root; a path string is resolved against it
      component by component, from the root or the current directory, as
      the kernel does.  There are no symbolic links, and nothing but the
      program changes the tree while it runs.
    - A file holds bytes, the UTF-8 encoding of what was written to it.
    - Mutable objects (the executor instance, [list] objects such as the
      caller's [args] and the local [cmd]) live in a heap of the [World],
      and are passed by reference.
    - Effects are written in a state-and-exception monad [M] over [World];
      [try ... except Exception] is [try_except].
    - [while True] is a fixpoint on a fuel argument; running out of fuel is
      the separate outcome [OutOfFuel], which no [except] clause catches. *)

From Stdlib Require Import ZArith String Ascii DecimalString.
From stdpp Require Import gmap strings list.

Local Open Scope Z_scope.

(** ** Python strings *)

Definition pystr := list N.

(** A source-code string literal. *)
Definition lit (s : string) : pystr :=
  (λ a, N_of_ascii a) <$> list_ascii_of_string s.

(** [str(z)] and [f"{z}"] for an [int]. *)
Definition str_of_int (z : Z) : pystr :=
  lit (NilZero.string_of_int (Z.to_int z)).

(** The line feed. *)
Definition newline : pystr := [10%N].

(** Truth value of a [str]: the empty string is false. *)
Definition str_truthy (s : pystr) : bool :=
  match s with [] => false | _ => true end.

(** Truth value of an [Optional[str]]: [None] and [""] are false. *)
Definition opt_str_truthy (o : option pystr) : bool :=
  match o with Some s => str_truthy s | None => false end.

(** [s.endswith(suffix)]. *)
Definition endswith (s suffix : pystr) : bool :=
  bool_decide (drop (length s - length suffix) s = suffix).

(** [sep.join(items)]. *)
Fixpoint join (sep : pystr) (items : list pystr) : pystr :=
  match items with
  | [] => []
  | [x] => x
  | x :: rest => x ++ sep ++ join sep rest
  end.

(** [str.isspace] on one code point (CPython's [Py_UNICODE_ISSPACE]). *)
Definition is_space (c : N) : bool :=
  ((9 <=? c) && (c <=? 13) || (28 <=? c) && (c <=? 32)
   || (c =? 133) || (c =? 160) || (c =? 5760)
   || (8192 <=? c) && (c <=? 8202)
   || (c =? 8232) || (c =? 8233) || (c =? 8239) || (c =? 8287)
   || (c =? 12288))%N.

Fixpoint drop_while {A} (p : A → bool) (l : list A) : list A :=
  match l with
  | [] => []
  | x :: l' => if p x then drop_while p l' else l
  end.

Fixpoint take_while {A} (p : A → bool) (l : list A) : list A :=
  match l with
  | [] => []
  | x :: l' => if p x then x :: take_while p l' else []
  end.

Definition lstrip_chars (p : N → bool) (s : pystr) : pystr := drop_while p s.
Definition rstrip_chars (p : N → bool) (s : pystr) : pystr :=
  reverse (drop_while p (reverse s)).

(** [s.strip()], [s.rstrip()] and [s.lstrip()] without argument. *)
Definition lstrip (s : pystr) : pystr := lstrip_chars is_space s.
Definition rstrip (s : pystr) : pystr := rstrip_chars is_space s.
Definition strip (s : pystr) : pystr := rstrip (lstrip s).

(** ** posixpath *)

Definition sep : N := 47%N.

Definition is_sep (c : N) : bool := (c =? sep)%N.

(** [head != sep * len(head)]. *)
Definition all_sep (s : pystr) : bool := forallb is_sep s.

(** [os.path.split(p)]: [i = p.rfind(sep) + 1], [head, tail = p[:i], p[i:]],
    and the trailing separators of [head] are removed unless [head] is made
    of separators only. *)
Definition path_split (p : pystr) : pystr * pystr :=
  let tail := reverse (take_while (λ c, negb (is_sep c)) (reverse p)) in
  let head := take (length p - length tail) p in
  let head :=
    if str_truthy head && negb (all_sep head)
    then rstrip_chars is_sep head else head in
  (head, tail).

(** [os.path.dirname(p)]. *)
Definition dirname (p : pystr) : pystr := fst (path_split p).

(** [os.path.isabs(p)]. *)
Definition is_abs (p : pystr) : bool :=
  match p with
  | c :: _ => is_sep c
  | [] => false
  end.

(** The path ends with a separator: it can only name a directory. *)
Definition ends_with_sep (p : pystr) : bool :=
  match last p with
  | Some c => is_sep c
  | None => false
  end.

(** The pieces of a path between its separators, and those that name
    something: repeated separators count as one. *)
Fixpoint comps (p : pystr) : list pystr :=
  match p with
  | [] => [[]]
  | c :: p' =>
      if is_sep c then [] :: comps p'
      else match comps p' with
           | h :: t => (c :: h) :: t
           | [] => [[c]]
           end
  end.

Definition real_comps (p : pystr) : list pystr := filter (λ c, str_truthy c) (comps p).

(** ** UTF-8

    [s.encode("utf-8")]: [None] where Python raises [UnicodeEncodeError],
    which is for a surrogate.  A [str] has no code point from 0x110000
    on. *)

Definition is_surrogate (c : N) : bool := ((55296 <=? c) && (c <=? 57343))%N.

Definition utf8_char (c : N) : option (list N) :=
  (if c <? 128 then Some [c]
   else if c <? 2048 then Some [192 + c / 64; 128 + c mod 64]
   else if is_surrogate c then None
   else if c <? 65536 then
     Some [224 + c / 4096; 128 + (c / 64) mod 64; 128 + c mod 64]
   else
     Some [240 + c / 262144; 128 + (c / 4096) mod 64;
           128 + (c / 64) mod 64; 128 + c mod 64])%N.

Fixpoint utf8_encode (s : pystr) : option (list N) :=
  match s with
  | [] => Some []
  | c :: s' =>
      match utf8_char c, utf8_encode s' with
      | Some b, Some bs => Some (b ++ bs)
      | _, _ => None
      end
  end.

(** The bytes of a string that can be encoded. *)
Definition utf8 (s : pystr) : list N := default [] (utf8_encode s).

(** [n] in [width] hexadecimal digits, as [%04x] prints it. *)
Definition hex_digit (d : N) : N := (if d <? 10 then 48 + d else 87 + d)%N.

Fixpoint hex_digits (width : nat) (n : N) : pystr :=
  match width with
  | O => []
  | S width' => hex_digits width' (n / 16) ++ [hex_digit (n mod 16)]
  end.

(** [str(e)] of the [UnicodeEncodeError] for a string with a surrogate: it
    names the first run of surrogates. *)
Definition surrogates_not_allowed (s : pystr) : pystr :=
  let before := take_while (λ c, negb (is_surrogate c)) s in
  let run := take_while is_surrogate (drop_while (λ c, negb (is_surrogate c)) s) in
  lit "'utf-8' codec can't encode "
  ++ match run with
     | [c] =>
         lit "character '\u" ++ hex_digits 4 c ++ lit "' in position "
         ++ str_of_int (Z.of_nat (length before))
     | _ =>
         lit "characters in position " ++ str_of_int (Z.of_nat (length before))
         ++ lit "-" ++ str_of_int (Z.of_nat (length before + length run - 1))
     end
  ++ lit ": surrogates not allowed".

(** ** Exceptions

    A [PyExc] is an instance of a subclass of [Exception]; [exc_str e] is
    [str(e)]. *)

Record PyExc := mkExc { exc_class : string; exc_str : pystr }.

Definition os_error_classes : list string :=
  [ "OSError"; "FileNotFoundError"; "FileExistsError"; "PermissionError";
    "NotADirectoryError"; "IsADirectoryError"; "BrokenPipeError";
    "BlockingIOError"; "ChildProcessError"; "InterruptedError";
    "ProcessLookupError"; "TimeoutError"; "ConnectionError" ]%string.

(** [isinstance(e, OSError)]. *)
Definition is_OSError (e : PyExc) : bool :=
  bool_decide (exc_class e ∈ os_error_classes).

(** [isinstance(e, FileExistsError)]. *)
Definition is_FileExistsError (e : PyExc) : bool :=
  bool_decide (exc_class e = "FileExistsError"%string).

(** The failures of a call on a path that the file system decides, by the
    class of the exception Python raises for them. *)
Inductive Failure :=
| FileNotFoundError
| FileExistsError
| NotADirectoryError
| IsADirectoryError.

Definition failure_class (f : Failure) : string :=
  match f with
  | FileNotFoundError => "FileNotFoundError"
  | FileExistsError => "FileExistsError"
  | NotADirectoryError => "NotADirectoryError"
  | IsADirectoryError => "IsADirectoryError"
  end.

(** The failures of a system call that the file system of the model does
    not decide: permissions, a full or read-only disk, a device error, a
    closed pipe, a signal, a console that cannot show a character.  A call
    never fails in this way with [FileExistsError], [FileNotFoundError],
    [NotADirectoryError] or [IsADirectoryError]: those are decided by the
    file system. *)
Inductive FaultClass :=
| PermissionError
| BrokenPipeError
| InterruptedError
| BlockingIOError
| OtherOSError
| ConsoleEncodeError.

Definition fault_class_name (c : FaultClass) : string :=
  match c with
  | PermissionError => "PermissionError"
  | BrokenPipeError => "BrokenPipeError"
  | InterruptedError => "InterruptedError"
  | BlockingIOError => "BlockingIOError"
  | OtherOSError => "OSError"
  | ConsoleEncodeError => "UnicodeEncodeError"
  end.

Record Fault := mkFault { fault_class : FaultClass; fault_str : pystr }.

Definition exc_of_fault (f : Fault) : PyExc :=
  mkExc (fault_class_name (fault_class f)) (fault_str f).

Definition UnicodeEncodeError (s : pystr) : PyExc :=
  mkExc "UnicodeEncodeError" (surrogates_not_allowed s).
Definition ValueError (msg : pystr) : PyExc := mkExc "ValueError" msg.
Definition TypeError (msg : pystr) : PyExc := mkExc "TypeError" msg.
Definition AttributeError (msg : pystr) : PyExc := mkExc "AttributeError" msg.
Definition RecursionError : PyExc :=
  mkExc "RecursionError" (lit "maximum recursion depth exceeded").

(** The answer of the operating system to one call. *)
Inductive Try (A : Type) : Type :=
| Ok (a : A)
| Err (e : PyExc).
Arguments Ok {A} a.
Arguments Err {A} e.

(** ** The world *)

Inductive Level := DEBUG | INFO | WARNING | ERROR.

(** What a child process does, as seen through the pipe and the process
    table: the answer to the k-th [readline()], to the k-th [poll()] that
    reaches the operating system, and to a [wait()] that does. *)
Record Child := mkChild {
  ch_readline : nat → Try pystr;
  ch_poll : nat → Try (option Z);
  ch_wait : Try Z;
}.

(** A [subprocess.Popen] object. *)
Record Popen := mkPopen {
  p_child : Child;
  p_reads : nat;
  p_polls : nat;
  p_returncode : option Z;
}.

(** Heap objects. *)
Inductive PyObj :=
| ObjList (items : list pystr)
| ObjScriptExecutor (in_docker : bool) (conda_env : pystr).

Abbreviation loc := nat.

(** The effects on the outside world, in the order they happened. *)
Inductive Event :=
| EvMkdir (path : pystr)
| EvSpawn (cmd : list pystr) (shell : bool) (env : gmap pystr pystr)
| EvPrint (text : pystr)
| EvOpen (path : pystr)
| EvWrite (path : pystr) (data : pystr)
| EvClose (path : pystr).

(** A place in the file system: the names that lead to it from the root,
    which is [[]]. *)
Abbreviation node := (list pystr).

Record World := mkWorld {
  environ : gmap pystr pystr;          (* os.environ *)
  cwd : node;                          (* the current directory *)
  fs_dirs : gset node;                 (* directories *)
  fs_files : gmap node (list N);       (* regular files and their bytes *)
  sys_stdout : pystr;                  (* what was written to sys.stdout *)
  log_records : list (Level * pystr);  (* what was handed to the logger *)
  heap : gmap loc PyObj;
  trace : list Event;
  clock : nat;                         (* number of fallible system calls so far *)
  io_fault : nat → option Fault;       (* the k-th system call fails with this *)
  failure_str : Failure → pystr → pystr;  (* str(e) of a failure on a path *)
  os_spawn : list pystr → bool → gmap pystr pystr → Try Child;
}.

Definition set_fs_dirs (d : gset node) (w : World) : World :=
  mkWorld (environ w) (cwd w) d (fs_files w) (sys_stdout w) (log_records w)
          (heap w) (trace w) (clock w) (io_fault w) (failure_str w) (os_spawn w).
Definition set_fs_files (f : gmap node (list N)) (w : World) : World :=
  mkWorld (environ w) (cwd w) (fs_dirs w) f (sys_stdout w) (log_records w)
          (heap w) (trace w) (clock w) (io_fault w) (failure_str w) (os_spawn w).
Definition set_sys_stdout (s : pystr) (w : World) : World :=
  mkWorld (environ w) (cwd w) (fs_dirs w) (fs_files w) s (log_records w)
          (heap w) (trace w) (clock w) (io_fault w) (failure_str w) (os_spawn w).
Definition set_log_records (l : list (Level * pystr)) (w : World) : World :=
  mkWorld (environ w) (cwd w) (fs_dirs w) (fs_files w) (sys_stdout w) l
          (heap w) (trace w) (clock w) (io_fault w) (failure_str w) (os_spawn w).
Definition set_heap (h : gmap loc PyObj) (w : World) : World :=
  mkWorld (environ w) (cwd w) (fs_dirs w) (fs_files w) (sys_stdout w) (log_records w)
          h (trace w) (clock w) (io_fault w) (failure_str w) (os_spawn w).
Definition set_trace (t : list Event) (w : World) : World :=
  mkWorld (environ w) (cwd w) (fs_dirs w) (fs_files w) (sys_stdout w) (log_records w)
          (heap w) t (clock w) (io_fault w) (failure_str w) (os_spawn w).
Definition set_clock (c : nat) (w : World) : World :=
  mkWorld (environ w) (cwd w) (fs_dirs w) (fs_files w) (sys_stdout w) (log_records w)
          (heap w) (trace w) c (io_fault w) (failure_str w) (os_spawn w).

(** ** The monad *)

Inductive Outcome (A : Type) : Type :=
| Ret (a : A)        (* normal completion *)
| Raise (e : PyExc)  (* an exception propagates *)
| OutOfFuel.         (* the fuel of a [while True] loop ran out *)
Arguments Ret {A} a.
Arguments Raise {A} e.
Arguments OutOfFuel {A}.

Definition M (A : Type) : Type := World → Outcome A * World.

Definition ret {A} (a : A) : M A := λ w, (Ret a, w).
Definition raise {A} (e : PyExc) : M A := λ w, (Raise e, w).
Definition out_of_fuel {A} : M A := λ w, (OutOfFuel, w).
Definition bind {A B} (m : M A) (k : A → M B) : M B :=
  λ w, match m w with
       | (Ret a, w') => k a w'
       | (Raise e, w') => (Raise e, w')
       | (OutOfFuel, w') => (OutOfFuel, w')
       end.

(** [try: m  except <classes matched by handles> as e: h e]. *)
Definition try_except {A} (m : M A) (handles : PyExc → bool) (h : PyExc → M A) : M A :=
  λ w, match m w with
       | (Raise e, w') => if handles e then h e w' else (Raise e, w')
       | r => r
       end.

(** [except Exception]: every [PyExc] is an [Exception]. *)
Definition Exception (e : PyExc) : bool := true.

Declare Scope py_scope.
Delimit Scope py_scope with py.
Notation "x <- m ;; k" := (bind m (λ x, k))
  (at level 100, m at next level, right associativity) : py_scope.
Notation "m ;;; k" := (bind m (λ _, k))
  (at level 100, right associativity) : py_scope.
Local Open Scope py_scope.


(** ** The logger *)

(** Modelled from the spec: [logger] of [lpm_kernel.common.logging], which is
    imported by the module but is not among its sources.  A call hands one
    line at one level to the application-wide logger and returns; like
    Python's [logging], it does not raise into its caller. *)
Definition logger_log (lvl : Level) (msg : pystr) : M unit :=
  λ w, (Ret tt, set_log_records (log_records w ++ [(lvl, msg)]) w).
Definition logger_info : pystr → M unit := logger_log INFO.
Definition logger_error : pystr → M unit := logger_log ERROR.

(** ** The operating system and the Python library

    Every call that can fail for reasons outside the program (permissions,
    a full disk, a closed pipe, a console that cannot show a character)
    first asks [io_fault]. *)

Definition syscall : M unit :=
  λ w, let w' := set_clock (S (clock w)) w in
       match io_fault w (clock w) with
       | Some f => (Raise (exc_of_fault f), w')
       | None => (Ret tt, w')
       end.

(** [raise] of the exception for a failure on the path [name]; its text
    shows the [repr] of the path. *)
Definition raise_failure {A} (f : Failure) (name : pystr) : M A :=
  λ w, (Raise (mkExc (failure_class f) (failure_str w f name)), w).

Definition emit (ev : Event) : M unit :=
  λ w, (Ret tt, set_trace (trace w ++ [ev]) w).

(** *** Path resolution

    A node is a directory when it is the current directory, a directory of
    [fs_dirs], or above one of them; a regular file when it is not a
    directory and [fs_files] has bytes for it. *)

Definition is_dir_node (w : World) (n : node) : bool :=
  bool_decide (set_Exists (λ d, n `prefix_of` d) ({[cwd w]} ∪ fs_dirs w)).

Definition is_file_node (w : World) (n : node) : bool :=
  negb (is_dir_node w n) && bool_decide (is_Some (fs_files w !! n)).

(** The node above a node; the root is above itself. *)
Definition parent (n : node) : node := take (length n - 1) n.

(** Where a path leads: to a directory, to a regular file, to a name that
    is free in an existing directory, or nowhere, because a name on the way
    does not exist ([ENOENT]) or is a regular file ([ENOTDIR]). *)
Inductive Resolved :=
| IsDir (n : node)
| IsFile (n : node)
| Absent (n : node)
| NoEnt
| NotDir.

(** One name further from a directory: [.] is the directory itself, [..]
    the one above. *)
Definition step (cur : node) (c : pystr) : node :=
  if bool_decide (c = lit ".") then cur
  else if bool_decide (c = lit "..") then parent cur
  else cur ++ [c].

Fixpoint walk (w : World) (cur : node) (cs : list pystr) : Resolved :=
  match cs with
  | [] => IsDir cur
  | c :: cs' =>
      let n := step cur c in
      if is_dir_node w n then walk w n cs'
      else if is_file_node w n
      then match cs' with [] => IsFile n | _ => NotDir end
      else match cs' with [] => Absent n | _ => NoEnt end
  end.

(** Where resolution starts. *)
Definition start (w : World) (p : pystr) : node :=
  if is_abs p then [] else cwd w.

Definition resolve (w : World) (p : pystr) : Resolved :=
  walk w (start w p) (real_comps p).

(** The empty path names nothing, and a regular file is not found under a
    name that ends with a separator. *)
Definition isdir_in (w : World) (p : pystr) : bool :=
  str_truthy p && match resolve w p with IsDir _ => true | _ => false end.

Definition isfile_in (w : World) (p : pystr) : bool :=
  str_truthy p && negb (ends_with_sep p)
  && match resolve w p with IsFile _ => true | _ => false end.

Definition exists_in (w : World) (p : pystr) : bool :=
  isdir_in w p || isfile_in w p.

(** [os.path.exists(p)], [os.path.isdir(p)], [os.getenv(key)]: they do not
    raise. *)
Definition os_path_exists (p : pystr) : M bool := λ w, (Ret (exists_in w p), w).
Definition os_path_isdir (p : pystr) : M bool := λ w, (Ret (isdir_in w p), w).
Definition os_getenv (key : pystr) : M (option pystr) :=
  λ w, (Ret (environ w !! key), w).

(** The kernel's look-up of a path. *)
Definition lookup_path (p : pystr) : M Resolved := λ w, (Ret (resolve w p), w).

(** [os.mkdir(name)]. *)
Definition os_mkdir (name : pystr) : M unit :=
  syscall ;;;
  if negb (str_truthy name) then raise_failure FileNotFoundError name
  else
    r <- lookup_path name ;;
    match r with
    | IsDir _ | IsFile _ => raise_failure FileExistsError name
    | NoEnt => raise_failure FileNotFoundError name
    | NotDir => raise_failure NotADirectoryError name
    | Absent n =>
        (λ w, (Ret tt, set_fs_dirs ({[n]} ∪ fs_dirs w) w)) ;;;
        emit (EvMkdir name)
    end.

(** The first lines of [os.makedirs]: [head, tail = path.split(name)], and
    [if not tail: head, tail = path.split(head)]. *)
Definition makedirs_split (name : pystr) : pystr * pystr :=
  let '(head, tail) := path_split name in
  if negb (str_truthy tail) then path_split head else (head, tail).

(** [os.makedirs(name, exist_ok=exist_ok)], after CPython's [os.py].  The
    recursion is on the head of the path, which is shorter than the path. *)
Fixpoint os_makedirs_rec (depth : nat) (name : pystr) (exist_ok : bool) : M unit :=
  match depth with
  | O => raise RecursionError
  | S depth' =>
    let '(head, tail) := makedirs_split name in
    head_exists <- os_path_exists head ;;
    finished <-
      (if str_truthy head && str_truthy tail && negb head_exists then
         try_except (os_makedirs_rec depth' head exist_ok)
                    is_FileExistsError (λ _, ret tt) ;;;
         ret (bool_decide (tail = lit "."))
       else ret false) ;;
    if (finished : bool) then ret tt
    else
      try_except (os_mkdir name) is_OSError
        (λ e, isdir <- os_path_isdir name ;;
              if negb exist_ok || negb isdir then raise e else ret tt)
  end.

Definition os_makedirs (name : pystr) (exist_ok : bool) : M unit :=
  os_makedirs_rec (S (length name)) name exist_ok.

(** An open file: the name it was opened under and the node it is. *)
Record FileHandle := mkFileHandle { fh_name : pystr; fh_node : node }.

(** [open(path, "a", encoding="utf-8")]: the file is created when the name
    is free; a name that ends with a separator is refused as a directory. *)
Definition open_append (path : pystr) : M FileHandle :=
  syscall ;;;
  if negb (str_truthy path) then raise_failure FileNotFoundError path
  else
    r <- lookup_path path ;;
    match r with
    | IsDir _ => raise_failure IsADirectoryError path
    | NoEnt => raise_failure FileNotFoundError path
    | NotDir => raise_failure NotADirectoryError path
    | IsFile n =>
        if ends_with_sep path then raise_failure IsADirectoryError path
        else emit (EvOpen path) ;;; ret (mkFileHandle path n)
    | Absent n =>
        if ends_with_sep path then raise_failure IsADirectoryError path
        else
          (λ w, (Ret tt, set_fs_files (<[n := []]> (fs_files w)) w)) ;;;
          emit (EvOpen path) ;;;
          ret (mkFileHandle path n)
    end.

(** [f.write(data)]: the bytes of [data] go to the end of the file. *)
Definition file_write (f : FileHandle) (data : pystr) : M unit :=
  match utf8_encode data with
  | None => raise (UnicodeEncodeError data)
  | Some b =>
      syscall ;;;
      (λ w, (Ret tt,
             set_fs_files
               (<[fh_node f := default [] (fs_files w !! fh_node f) ++ b]> (fs_files w))
               w)) ;;;
      emit (EvWrite (fh_name f) data)
  end.

Definition file_close (f : FileHandle) : M unit := emit (EvClose (fh_name f)).

(** [with open(path, "a", encoding="utf-8") as f: f.write(data)]: the file
    is closed on the way out, also when the write raises. *)
Definition with_open_append_write (path data : pystr) : M unit :=
  f <- open_append path ;;
  (λ w, match file_write f data w with
        | (Ret _, w') => file_close f w'
        | (Raise e, w') => (file_close f ;;; raise e) w'
        | (OutOfFuel, w') => (OutOfFuel, w')
        end).

(** [print(text)]. *)
Definition print (text : pystr) : M unit :=
  syscall ;;;
  (λ w, (Ret tt, set_sys_stdout (sys_stdout w ++ text ++ newline) w)) ;;;
  emit (EvPrint text).

(** *** Heap objects *)

Definition new_object (o : PyObj) : M loc :=
  λ w, let l := fresh (dom (heap w)) in (Ret l, set_heap (<[l := o]> (heap w)) w).

(** The items of a [list] object; anything else is not iterable. *)
Definition list_items (l : loc) : M (list pystr) :=
  λ w, match heap w !! l with
       | Some (ObjList items) => (Ret items, w)
       | _ => (Raise (TypeError (lit "object is not iterable")), w)
       end.

(** [l.extend(other)]. *)
Definition list_extend (l other : loc) : M unit :=
  more <- list_items other ;;
  mine <- list_items l ;;
  λ w, (Ret tt, set_heap (<[l := ObjList (mine ++ more)]> (heap w)) w).

(** Truth value of an [Optional[List[str]]]. *)
Definition opt_list_truthy (args : option loc) : M bool :=
  match args with
  | None => ret false
  | Some a => items <- list_items a ;;
              ret (match items with [] => false | _ => true end)
  end.

(** [self.in_docker] and [self.conda_env]. *)
Definition get_in_docker (self : loc) : M bool :=
  λ w, match heap w !! self with
       | Some (ObjScriptExecutor in_docker _) => (Ret in_docker, w)
       | _ => (Raise (AttributeError (lit "object has no attribute 'in_docker'")), w)
       end.
Definition get_conda_env (self : loc) : M pystr :=
  λ w, match heap w !! self with
       | Some (ObjScriptExecutor _ conda_env) => (Ret conda_env, w)
       | _ => (Raise (AttributeError (lit "object has no attribute 'conda_env'")), w)
       end.

(** *** subprocess *)

(** [subprocess.Popen(cmd, shell=shell, env=os.environ.copy(),
    stdout=PIPE, stderr=STDOUT, bufsize=1, universal_newlines=True)]. *)
Definition subprocess_Popen (cmd : loc) (shell : bool) : M Popen :=
  argv <- list_items cmd ;;
  λ w, match os_spawn w argv shell (environ w) with
       | Ok child =>
           (Ret (mkPopen child 0 0 None),
            set_trace (trace w ++ [EvSpawn argv shell (environ w)]) w)
       | Err e => (Raise e, w)
       end.

(** [process.stdout.readline()]. *)
Definition Popen_readline (p : Popen) : M (pystr * Popen) :=
  let p' := mkPopen (p_child p) (S (p_reads p)) (p_polls p) (p_returncode p) in
  match ch_readline (p_child p) (p_reads p) with
  | Ok line => ret (line, p')
  | Err e => raise e
  end.

(** [process.poll()]: the return code once known is kept in the object. *)
Definition Popen_poll (p : Popen) : M (option Z * Popen) :=
  match p_returncode p with
  | Some c => ret (Some c, p)
  | None =>
      match ch_poll (p_child p) (p_polls p) with
      | Ok rc => ret (rc, mkPopen (p_child p) (p_reads p) (S (p_polls p)) rc)
      | Err e => raise e
      end
  end.

(** [process.wait()]. *)
Definition Popen_wait (p : Popen) : M (Z * Popen) :=
  match p_returncode p with
  | Some c => ret (c, p)
  | None =>
      match ch_wait (p_child p) with
      | Ok c => ret (c, mkPopen (p_child p) (p_reads p) (p_polls p) (Some c))
      | Err e => raise e
      end
  end.

(** ** class ScriptExecutor *)

Record ExecutionResult := mkResult {
  returncode : Z;
  error : option pystr;
}.

(** [ScriptExecutor()]: [__init__] (lines 15-25) on a new object; the
    reference to it is returned when [__init__] does not raise. *)
Definition ScriptExecutor_new : M loc :=
  flag <- os_getenv (lit "IN_DOCKER_ENV") ;;
  marker <- os_path_exists (lit "/.dockerenv") ;;
  let in_docker := bool_decide (flag = Some (lit "1")) || marker in
  if negb in_docker then
    conda_env <- os_getenv (lit "CONDA_DEFAULT_ENV") ;;
    if negb (opt_str_truthy conda_env) then
      raise (ValueError (lit "CONDA_DEFAULT_ENV environment variable is not set and not running in Docker"))
    else new_object (ObjScriptExecutor in_docker (default [] conda_env))
  else
    new_object (ObjScriptExecutor in_docker (lit "docker-env")).

(** Lines 50-86 of [execute]: the command, as a new [list] object. *)
Definition build_command (self : loc) (script_path : pystr) (args : option loc) : M loc :=
  in_docker <- get_in_docker self ;;
  cmd <-
    (if (in_docker : bool) then
       if endswith script_path (lit ".py")
       then new_object (ObjList [lit "python"; script_path])
       else new_object (ObjList [script_path])
     else
       if endswith script_path (lit ".py") then
         conda_env <- get_conda_env self ;;
         new_object (ObjList [lit "conda"; lit "run"; lit "-n"; conda_env;
                              lit "python"; lit "-u"; script_path])
       else if endswith script_path (lit ".sh") then
         conda_env <- get_conda_env self ;;
         new_object (ObjList [lit "conda"; lit "run"; lit "-n"; conda_env;
                              lit "bash"; lit "-x"; script_path])
       else
         conda_env <- get_conda_env self ;;
         new_object (ObjList [lit "conda"; lit "run"; lit "-n"; conda_env;
                              script_path])) ;;
  has_args <- opt_list_truthy args ;;
  (if (has_args : bool) then list_extend cmd (default 0%nat args) else ret tt) ;;;
  ret cmd.

(** One pass of the body of [while True] after the [break] test (lines
    110-116). *)
Definition handle_output (output : pystr) (log_file : option pystr) : M unit :=
  if str_truthy output then
    print (strip output) ;;;
    if opt_str_truthy log_file
    then with_open_append_write (default [] log_file) output
    else ret tt
  else ret tt.

(** Lines 106-116: the draining loop. *)
Fixpoint drain (fuel : nat) (process : Popen) (log_file : option pystr) : M Popen :=
  match fuel with
  | O => out_of_fuel
  | S fuel' =>
    r <- Popen_readline process ;;
    let '(output, process) := r in
    b <- (if negb (str_truthy output) then
            r <- Popen_poll process ;;
            let '(rc, process) := r in
            ret (bool_decide (rc ≠ None), process)
          else ret (false, process)) ;;
    let '(stop, process) := b in
    if (stop : bool) then ret process
    else
      handle_output output log_file ;;;
      drain fuel' process log_file
  end.

(** The dictionary returned on the normal path (lines 126-131). *)
Definition result_of_return_code (return_code : Z) : ExecutionResult :=
  {| returncode := return_code;
     error := if bool_decide (return_code ≠ 0)
              then Some (lit "Execution failed, return code: " ++ str_of_int return_code)
              else None |}.

(** Lines 88-116 of the [try] body: log the command, prepare the log
    directory, spawn the child and drain its output. *)
Definition spawn_and_drain (cmd : loc) (shell : bool)
    (log_file : option pystr) (fuel : nat) : M Popen :=
  argv <- list_items cmd ;;
  logger_info (lit "Executing command: " ++ join (lit " ") argv) ;;;
  (if opt_str_truthy log_file
   then os_makedirs (dirname (default [] log_file)) true
   else ret tt) ;;;
  process <- subprocess_Popen cmd shell ;;
  drain fuel process log_file.

(** Lines 49-116 of the [try] body. *)
Definition execute_run (self : loc) (script_path : pystr)
    (args : option loc) (shell : bool) (log_file : option pystr)
    (fuel : nat) : M Popen :=
  cmd <- build_command self script_path args ;;
  spawn_and_drain cmd shell log_file fuel.

(** Lines 118-131 of the [try] body: wait for the child and translate its
    return code. *)
Definition execute_complete (process : Popen) : M ExecutionResult :=
  r <- Popen_wait process ;;
  let '(return_code, process) := r in
  (if bool_decide (return_code ≠ 0)
   then logger_error (lit "Command execution failed, return code: " ++ str_of_int return_code)
   else logger_info (lit "Command execution successful, return code: " ++ str_of_int return_code)) ;;;
  ret (result_of_return_code return_code).

(** The body of the [try] (lines 49-131). *)
Definition execute_body (self : loc) (script_path script_type : pystr)
    (args : option loc) (shell : bool) (log_file : option pystr)
    (fuel : nat) : M ExecutionResult :=
  process <- execute_run self script_path args shell log_file fuel ;;
  execute_complete process.

(** The [except Exception as e] clause (lines 133-136). *)
Definition execute_handler (script_type : pystr) (e : PyExc) : M ExecutionResult :=
  let error_msg := lit "Error occurred while executing " ++ script_type
                   ++ lit " script: " ++ exc_str e in
  logger_error error_msg ;;;
  ret {| error := Some error_msg; returncode := -1 |}.

(** [ScriptExecutor.execute] (lines 27-136).  [fuel] bounds the number of
    passes through the draining loop. *)
Definition execute (self : loc) (script_path script_type : pystr)
    (args : option loc) (shell : bool) (log_file : option pystr)
    (fuel : nat) : M ExecutionResult :=
  try_except
    (execute_body self script_path script_type args shell log_file fuel)
    Exception
    (execute_handler script_type).

(** ** Vocabulary of the specification *)

(** The context is containerized: [IN_DOCKER_ENV] is ["1"] or the marker
    path exists. *)
Definition containerized (w : World) : bool :=
  bool_decide (environ w !! lit "IN_DOCKER_ENV" = Some (lit "1"))
  || exists_in w (lit "/.dockerenv").

(** An environment variable that is unset or empty. *)
Definition unset_or_empty (v : option pystr) : bool :=
  match v with
  | None => true
  | Some [] => true
  | Some (_ :: _) => false
  end.

(** The command of the specification, section 4.1 step 1. *)
Definition spec_command (isContainerized : bool)
    (environmentName scriptPath : pystr) (args : list pystr) : list pystr :=
  (if isContainerized then
     if endswith scriptPath (lit ".py")
     then [lit "python"; scriptPath]
     else [scriptPath]
   else
     [lit "conda"; lit "run"; lit "-n"; environmentName]
     ++ (if endswith scriptPath (lit ".py")
         then [lit "python"; lit "-u"; scriptPath]
         else if endswith scriptPath (lit ".sh")
         then [lit "bash"; lit "-x"; scriptPath]
         else [scriptPath]))
  ++ args.

(** The caller's [args]: [None] or a reference to a list object. *)
Definition args_ok (w : World) (args : option loc) : Prop :=
  match args with
  | None => True
  | Some a => ∃ items, heap w !! a = Some (ObjList items)
  end.

Definition args_items (w : World) (args : option loc) : list pystr :=
  match args with
  | Some a => match heap w !! a with Some (ObjList items) => items | _ => [] end
  | None => []
  end.

(** The items of the list a computation returns a reference to. *)
Definition returned_list (r : Outcome loc * World) : option (list pystr) :=
  match r with
  | (Ret l, w) => match heap w !! l with Some (ObjList items) => Some items | _ => None end
  | _ => None
  end.

(** An exception escapes to the caller. *)
Definition raises {A} (r : Outcome A * World) : bool :=
  match r with
  | (Raise _, _) => true
  | _ => false
  end.

(** The message of the internal-failure result. *)
Definition internal_failure_message (scriptKind description : pystr) : pystr :=
  lit "Error occurred while executing " ++ scriptKind ++ lit " script: "
  ++ description.

(** A child that ends: from the [n]-th [readline()] on the pipe is at its
    end, and from the [m]-th [poll()] on the child has exited. *)
Definition child_ends (c : Child) (n m : nat) : Prop :=
  (∀ k, (n ≤ k)%nat → ch_readline c k = Ok [])
  ∧ (∀ j, (m ≤ j)%nat → ∃ code, ch_poll c j = Ok (Some code)).

(** The non-empty lines among [count] answers of [readline()], from the
    [from]-th on. *)
Fixpoint lines_read (c : Child) (from count : nat) : list pystr :=
  match count with
  | O => []
  | S count' =>
      match ch_readline c from with
      | Ok (x :: line) => [x :: line]
      | _ => []
      end ++ lines_read c (S from) count'
  end.

(** The node a path names, and the nodes it passes on the way there, by
    the names alone. *)
Fixpoint node_from (cur : node) (cs : list pystr) : node :=
  match cs with
  | [] => cur
  | c :: cs' => node_from (step cur c) cs'
  end.

Fixpoint nodes_from (cur : node) (cs : list pystr) : list node :=
  match cs with
  | [] => []
  | c :: cs' => step cur c :: nodes_from (step cur c) cs'
  end.

Definition path_node (w : World) (p : pystr) : node :=
  node_from (start w p) (real_comps p).

Definition path_nodes (w : World) (p : pystr) : list node :=
  nodes_from (start w p) (real_comps p).

(** No name on the way of a path, the last included, is a regular file. *)
Definition no_file_on (w : World) (p : pystr) : bool :=
  forallb (λ n, negb (is_file_node w n)) (path_nodes w p).

(** The bytes of a file that does not exist are none. *)
Definition file_bytes (w : World) (n : node) : list N :=
  default [] (fs_files w !! n).

(** What forwarding one line does to the outside world. *)
Definition forwarded (log_file : option pystr) (line : pystr) : list Event :=
  EvPrint (strip line)
  :: (if opt_str_truthy log_file
      then [EvOpen (default [] log_file);
            EvWrite (default [] log_file) line;
            EvClose (default [] log_file)]
      else []).

(** ** Properties of computations

    [preserves f m]: running [m] leaves the component [f] of the world as it
    found it, whatever the outcome. *)

Definition preserves {A X} (f : World → X) (m : M A) : Prop :=
  ∀ w o w', m w = (o, w') → f w' = f w.

(** The components a projection does not look at. *)
Definition ignores_clock {X} (f : World → X) := ∀ x w, f (set_clock x w) = f w.
Definition ignores_trace {X} (f : World → X) := ∀ x w, f (set_trace x w) = f w.
Definition ignores_log {X} (f : World → X) := ∀ x w, f (set_log_records x w) = f w.
Definition ignores_dirs {X} (f : World → X) := ∀ x w, f (set_fs_dirs x w) = f w.
Definition ignores_files {X} (f : World → X) := ∀ x w, f (set_fs_files x w) = f w.
Definition ignores_stdout {X} (f : World → X) := ∀ x w, f (set_sys_stdout x w) = f w.
Definition ignores_heap {X} (f : World → X) := ∀ x w, f (set_heap x w) = f w.

(** [halts m]: [m] never runs out of fuel, because it has no loop or
    because its recursion is bounded by its input. *)

Definition halts {A} (m : M A) : Prop := ∀ w, (m w).1 ≠ OutOfFuel.

(** [only_mkdirs m]: the only thing [m] does to the outside world is to
    create directories. *)
Definition only_mkdirs {A} (m : M A) : Prop :=
  ∀ w o w', m w = (o, w') → ∃ mk, trace w' = trace w ++ (EvMkdir <$> mk).

(** ** Vocabulary of the further properties *)

(** [respects R m]: the world after [m] is related by [R] to the world
    before it, whatever the outcome. *)
Definition respects {A} (R : World → World → Prop) (m : M A) : Prop :=
  ∀ w o w', m w = (o, w') → R w w'.

(** The files of [w'] are those of [w], except that the file [path] names
    may have been created and may have grown at its end. *)
Definition files_appended (path : pystr) (w w' : World) : Prop :=
  cwd w' = cwd w
  ∧ (∀ n, n ≠ path_node w path → fs_files w' !! n = fs_files w !! n)
  ∧ (∀ old, fs_files w !! path_node w path = Some old →
            ∃ more, fs_files w' !! path_node w path = Some (old ++ more)).

(** What [files_appended] looks at. *)
Definition cwd_and_files (w : World) : node * gmap node (list N) :=
  (cwd w, fs_files w).

(** No directory of [w] is missing in [w']. *)
Definition dirs_kept (w w' : World) : Prop := fs_dirs w ⊆ fs_dirs w'.

(** An effect of forwarding a line: a print, or an open, write or close of
    the log file. *)
Definition forward_event (log_file : option pystr) (ev : Event) : bool :=
  match ev with
  | EvPrint _ => true
  | EvOpen p | EvWrite p _ | EvClose p =>
      opt_str_truthy log_file && bool_decide (p = default [] log_file)
  | _ => false
  end.

(** The number of files opened and not yet closed along a trace. *)
Fixpoint open_files (evs : list Event) : Z :=
  match evs with
  | [] => 0
  | EvOpen _ :: evs' => open_files evs' + 1
  | EvClose _ :: evs' => open_files evs' - 1
  | _ :: evs' => open_files evs'
  end.

(** Since [w] only lines were forwarded, and every file opened for one is
    closed again. *)
Definition forwarding (log_file : option pystr) (w w' : World) : Prop :=
  ∃ evs, trace w' = trace w ++ evs
         ∧ forallb (forward_event log_file) evs = true
         ∧ open_files evs = 0.

(** Nothing happened to the file system. *)
Definition fs_unchanged (w w' : World) : Prop :=
  fs_dirs w' = fs_dirs w ∧ fs_files w' = fs_files w.

(** The level at which the verdict of a call is logged. *)
Definition verdict_level (r : ExecutionResult) : Level :=
  match error r with Some _ => ERROR | None => INFO end.

(** ** Sample worlds *)

(** A child that writes [lines] and exits with [code]. *)
Definition sample_child (lines : list pystr) (code : Z) : Child :=
  mkChild (λ k, Ok (default [] (lines !! k))) (λ _, Ok (Some code)) (Ok code).

(** [str(e)] for a failure on a path that [repr] shows as it is, between
    apostrophes: one of printable ASCII characters without apostrophe or
    backslash. *)
Definition sample_failure_str (f : Failure) (name : pystr) : pystr :=
  match f with
  | FileNotFoundError => lit "[Errno 2] No such file or directory: '" ++ name ++ lit "'"
  | FileExistsError => lit "[Errno 17] File exists: '" ++ name ++ lit "'"
  | NotADirectoryError => lit "[Errno 20] Not a directory: '" ++ name ++ lit "'"
  | IsADirectoryError => lit "[Errno 21] Is a directory: '" ++ name ++ lit "'"
  end.

(** A world in which the current directory is [/work] and holds [dirs] and
    [files], no system call fails and every spawn gives [child]. *)
Definition sample_world_with (dirs : gset node) (files : gmap node (list N))
    (env : gmap pystr pystr) (objects : gmap loc PyObj)
    (child : Try Child) : World :=
  mkWorld env [lit "work"] dirs files [] [] objects [] 0 (λ _, None)
          sample_failure_str (λ _ _ _, child).

(** The same with nothing in the current directory. *)
Definition sample_world : gmap pystr pystr → gmap loc PyObj → Try Child → World :=
  sample_world_with ∅ ∅.

Definition sample_args : PyObj := ObjList [lit "--x"; lit "1"].

(** Inside a container; the child prints one indented line and exits 0. *)
Definition docker_world : World :=
  sample_world {[ lit "IN_DOCKER_ENV" := lit "1" ]}
    (<[1%nat := sample_args]>
       {[ 0%nat := ObjScriptExecutor true (lit "docker-env") ]})
    (Ok (sample_child [lit "  hello" ++ newline] 0)).

(** In the environment [lpm]; the child prints nothing and exits 7. *)
Definition conda_world : World :=
  sample_world {[ lit "CONDA_DEFAULT_ENV" := lit "lpm" ]}
    (<[1%nat := sample_args]>
       {[ 0%nat := ObjScriptExecutor false (lit "lpm") ]})
    (Ok (sample_child [] 7)).

(** Inside a container; the child prints nothing and exits 0. *)
Definition quiet_world : World :=
  sample_world {[ lit "IN_DOCKER_ENV" := lit "1" ]}
    {[ 0%nat := ObjScriptExecutor true (lit "docker-env") ]}
    (Ok (sample_child [] 0)).

(** Inside a container; the command cannot be spawned. *)
Definition missing_world : World :=
  sample_world {[ lit "IN_DOCKER_ENV" := lit "1" ]}
    {[ 0%nat := ObjScriptExecutor true (lit "docker-env") ]}
    (Err (mkExc "FileNotFoundError"
                (lit "[Errno 2] No such file or directory: 'nowhere'"))).

(** Neither a container nor a named environment. *)
Definition bare_world : World := sample_world ∅ ∅ (Ok (sample_child [] 0)).

(** Inside a container, with an empty list of arguments at reference 2. *)
Definition empty_args_world : World :=
  sample_world {[ lit "IN_DOCKER_ENV" := lit "1" ]}
    (<[2%nat := ObjList []]>
       {[ 0%nat := ObjScriptExecutor true (lit "docker-env") ]})
    (Ok (sample_child [] 0)).

(** Inside a container, with the regular file [f] in the current
    directory; the child prints nothing and exits 0. *)
Definition file_world : World :=
  sample_world_with ∅ {[ [lit "work"; lit "f"] := [] ]}
    {[ lit "IN_DOCKER_ENV" := lit "1" ]}
    {[ 0%nat := ObjScriptExecutor true (lit "docker-env") ]}
    (Ok (sample_child [] 0)).

(** Inside a container, where [logs/run.log] holds an earlier line and
    [notes.txt] lies beside the directory [logs]; the child prints one
    indented line and exits 0. *)
Definition used_world : World :=
  sample_world_with
    {[ [lit "work"; lit "logs"] ]}
    (<[ [lit "work"; lit "logs"; lit "run.log"] := utf8 (lit "earlier" ++ newline) ]>
       {[ [lit "work"; lit "notes.txt"] := utf8 (lit "keep") ]})
    {[ lit "IN_DOCKER_ENV" := lit "1" ]}
    {[ 0%nat := ObjScriptExecutor true (lit "docker-env") ]}
    (Ok (sample_child [lit "  hello" ++ newline] 0)).

(** Inside a container; the child prints the lines [a], [b] and [c] and
    exits 0, and the disk is full at the system call number [k]. *)
Definition disk_full_world (k : nat) : World :=
  mkWorld {[ lit "IN_DOCKER_ENV" := lit "1" ]} [lit "work"] ∅ ∅ [] []
    {[ 0%nat := ObjScriptExecutor true (lit "docker-env") ]} [] 0
    (λ i, if bool_decide (i = k)
          then Some (mkFault OtherOSError (lit "[Errno 28] No space left on device"))
          else None)
    sample_failure_str
    (λ _ _ _, Ok (sample_child [lit "a" ++ newline; lit "b" ++ newline;
                                lit "c" ++ newline] 0)).

(** In the environment [lpm], before any executor is constructed. *)
Definition fresh_conda_world : World :=
  sample_world {[ lit "CONDA_DEFAULT_ENV" := lit "lpm" ]} ∅
    (Ok (sample_child [] 0)).

(** * Properties *)

(** ** Reasoning about [M] *)

Lemma bind_inv {A B} (m : M A) (k : A → M B) w o w' :
  bind m k w = (o, w') →
  (∃ a w1, m w = (Ret a, w1) ∧ k a w1 = (o, w'))
  ∨ (∃ e, m w = (Raise e, w') ∧ o = Raise e)
  ∨ (m w = (OutOfFuel, w') ∧ o = OutOfFuel).
Proof.
  unfold bind. destruct (m w) as [[a|e|] w1]; intros H.
  - left. eauto.
  - right. left. inversion H. eauto.
  - right. right. inversion H. eauto.
Qed.

Lemma bind_Ret_inv {A B} (m : M A) (k : A → M B) w b w' :
  bind m k w = (Ret b, w') →
  ∃ a w1, m w = (Ret a, w1) ∧ k a w1 = (Ret b, w').
Proof.
  intros H. apply bind_inv in H as [H|[[e [_ H]]|[_ H]]]; [done|done|done].
Qed.

Lemma bind_Ret {A B} (m : M A) (k : A → M B) w a w1 :
  m w = (Ret a, w1) → bind m k w = k a w1.
Proof. unfold bind. by intros ->. Qed.

Lemma bind_Raise {A B} (m : M A) (k : A → M B) w e w1 :
  m w = (Raise e, w1) → bind m k w = (Raise e, w1).
Proof. unfold bind. by intros ->. Qed.

Lemma bind_assoc {A B C} (m : M A) (k1 : A → M B) (k2 : B → M C) w :
  bind (bind m k1) k2 w = bind m (λ a, bind (k1 a) k2) w.
Proof. unfold bind. by destruct (m w) as [[a|e|] w1]. Qed.

(** ** Frame properties *)

Ltac preserves_prim :=
  let w := fresh "w" in let o := fresh "o" in let w' := fresh "w'" in
  let H := fresh "H" in
  intros w o w' H; cbv beta delta [ret raise out_of_fuel] in H;
  repeat case_match; simplify_eq; done.

Section Preserves.
Context {X : Type} (f : World → X).

Lemma preserves_ret {A} (a : A) : preserves f (ret a).
Proof. preserves_prim. Qed.

Lemma preserves_raise {A} e : preserves f (@raise A e).
Proof. preserves_prim. Qed.

Lemma preserves_out_of_fuel {A} : preserves f (@out_of_fuel A).
Proof. preserves_prim. Qed.

Lemma preserves_bind {A B} (m : M A) (k : A → M B) :
  preserves f m → (∀ a, preserves f (k a)) → preserves f (bind m k).
Proof.
  intros Hm Hk w o w' H.
  apply bind_inv in H as [(a & w1 & H1 & H2)|[(e & H1 & _)|[H1 _]]].
  - rewrite (Hk _ _ _ _ H2). by eapply Hm.
  - by eapply Hm.
  - by eapply Hm.
Qed.

Lemma preserves_try {A} (m : M A) handles h :
  preserves f m → (∀ e, preserves f (h e)) →
  preserves f (try_except m handles h).
Proof.
  intros Hm Hh w o w' H. unfold try_except in H.
  destruct (m w) as [[a|e|] w1] eqn:E.
  - inversion H; subst. by eapply Hm.
  - destruct (handles e).
    + rewrite (Hh _ _ _ _ H). by eapply Hm.
    + inversion H; subst. by eapply Hm.
  - inversion H; subst. by eapply Hm.
Qed.

Lemma preserves_os_path_exists p : preserves f (os_path_exists p).
Proof. unfold os_path_exists. preserves_prim. Qed.
Lemma preserves_os_path_isdir p : preserves f (os_path_isdir p).
Proof. unfold os_path_isdir. preserves_prim. Qed.
Lemma preserves_os_getenv k : preserves f (os_getenv k).
Proof. unfold os_getenv. preserves_prim. Qed.
Lemma preserves_lookup_path p : preserves f (lookup_path p).
Proof. unfold lookup_path. preserves_prim. Qed.
Lemma preserves_raise_failure {A} failure name :
  preserves f (@raise_failure A failure name).
Proof. unfold raise_failure. preserves_prim. Qed.
Lemma preserves_list_items l : preserves f (list_items l).
Proof. unfold list_items. preserves_prim. Qed.
Lemma preserves_get_in_docker l : preserves f (get_in_docker l).
Proof. unfold get_in_docker. preserves_prim. Qed.
Lemma preserves_get_conda_env l : preserves f (get_conda_env l).
Proof. unfold get_conda_env. preserves_prim. Qed.
Lemma preserves_Popen_readline p : preserves f (Popen_readline p).
Proof. unfold Popen_readline. preserves_prim. Qed.
Lemma preserves_Popen_poll p : preserves f (Popen_poll p).
Proof. unfold Popen_poll. preserves_prim. Qed.
Lemma preserves_Popen_wait p : preserves f (Popen_wait p).
Proof. unfold Popen_wait. preserves_prim. Qed.

Lemma preserves_syscall : ignores_clock f → preserves f syscall.
Proof. intros Hc w o w' H. unfold syscall in H. case_match; simplify_eq; apply Hc. Qed.
Lemma preserves_emit ev : ignores_trace f → preserves f (emit ev).
Proof. intros Hc w o w' H. unfold emit in H. simplify_eq. apply Hc. Qed.
Lemma preserves_logger_log lvl msg : ignores_log f → preserves f (logger_log lvl msg).
Proof. intros Hc w o w' H. unfold logger_log in H. simplify_eq. apply Hc. Qed.
Lemma preserves_new_object o : ignores_heap f → preserves f (new_object o).
Proof. intros Hc w r w' H. unfold new_object in H. simplify_eq. apply Hc. Qed.
Lemma preserves_subprocess_Popen cmd shell :
  ignores_trace f → preserves f (subprocess_Popen cmd shell).
Proof.
  intros Hc w r w' H. unfold subprocess_Popen in H.
  apply bind_inv in H as [(a & w1 & H1 & H2)|[(e & H1 & _)|[H1 _]]];
    unfold list_items in H1; repeat case_match; simplify_eq; done.
Qed.
End Preserves.

Create HintDb frame discriminated.

#[export] Hint Resolve preserves_ret preserves_raise preserves_out_of_fuel
  preserves_os_path_exists preserves_os_path_isdir preserves_os_getenv
  preserves_lookup_path preserves_raise_failure
  preserves_list_items preserves_get_in_docker preserves_get_conda_env
  preserves_Popen_readline preserves_Popen_poll preserves_Popen_wait
  preserves_syscall preserves_emit preserves_logger_log preserves_new_object
  preserves_subprocess_Popen : frame.

(** Break a compound computation into its primitives. *)
Ltac frame_step :=
  first
    [ apply preserves_bind; [|intros ?]
    | apply preserves_try; [|intros ?]
    | match goal with
      | |- preserves _ (if ?b then _ else _) => destruct b
      | |- preserves _ (match ?x with _ => _ end) => destruct x
      end ].
Ltac frame := repeat first [ solve [eauto with frame] | frame_step ].

#[export] Hint Extern 1 (ignores_clock _) => (intros ? ?; reflexivity) : frame.
#[export] Hint Extern 1 (ignores_trace _) => (intros ? ?; reflexivity) : frame.
#[export] Hint Extern 1 (ignores_log _) => (intros ? ?; reflexivity) : frame.
#[export] Hint Extern 1 (ignores_dirs _) => (intros ? ?; reflexivity) : frame.
#[export] Hint Extern 1 (ignores_files _) => (intros ? ?; reflexivity) : frame.
#[export] Hint Extern 1 (ignores_stdout _) => (intros ? ?; reflexivity) : frame.
#[export] Hint Extern 1 (ignores_heap _) => (intros ? ?; reflexivity) : frame.

Section CompoundFrames.
Context {X : Type} (f : World → X).

Lemma preserves_os_mkdir name :
  ignores_clock f → ignores_dirs f → ignores_trace f →
  preserves f (os_mkdir name).
Proof.
  intros Hc Hd Ht. unfold os_mkdir. frame.
  intros w o w' H. simplify_eq. apply Hd.
Qed.
#[local] Hint Resolve preserves_os_mkdir : frame.

Lemma preserves_os_makedirs_rec depth name exist_ok :
  ignores_clock f → ignores_dirs f → ignores_trace f →
  preserves f (os_makedirs_rec depth name exist_ok).
Proof.
  intros Hc Hd Ht. revert name.
  induction depth as [|depth IH]; intros name; simpl; [frame|].
  destruct (makedirs_split name) as [head tail].
  frame; auto using preserves_os_mkdir.
Qed.
#[local] Hint Resolve preserves_os_makedirs_rec : frame.

Lemma preserves_os_makedirs name exist_ok :
  ignores_clock f → ignores_dirs f → ignores_trace f →
  preserves f (os_makedirs name exist_ok).
Proof. apply preserves_os_makedirs_rec. Qed.
#[local] Hint Resolve preserves_os_makedirs : frame.

Lemma preserves_open_append path :
  ignores_clock f → ignores_files f → ignores_trace f →
  preserves f (open_append path).
Proof.
  intros Hc Hf Ht. unfold open_append. frame.
  intros w o w' H. simplify_eq. apply Hf.
Qed.
#[local] Hint Resolve preserves_open_append : frame.

Lemma preserves_file_write path data :
  ignores_clock f → ignores_files f → ignores_trace f →
  preserves f (file_write path data).
Proof.
  intros Hc Hf Ht. unfold file_write. frame.
  intros w o w' H. simplify_eq. apply Hf.
Qed.
#[local] Hint Resolve preserves_file_write : frame.

Lemma preserves_file_close path : ignores_trace f → preserves f (file_close path).
Proof. intros Ht. unfold file_close. frame. Qed.
#[local] Hint Resolve preserves_file_close : frame.

Lemma preserves_with_open_append_write path data :
  ignores_clock f → ignores_files f → ignores_trace f →
  preserves f (with_open_append_write path data).
Proof.
  intros Hc Hf Ht. unfold with_open_append_write.
  apply preserves_bind; [by apply preserves_open_append|intros h].
  intros w o w' H.
  destruct (file_write h data w) as [[[]|e|] w1] eqn:E.
  - rewrite (preserves_file_close h Ht _ _ _ H).
    by eapply preserves_file_write.
  - assert (preserves f (file_close h ;;; @raise unit e)) as Hp.
    { apply preserves_bind; [by apply preserves_file_close|frame]. }
    rewrite (Hp _ _ _ H). by eapply preserves_file_write.
  - simplify_eq. by eapply preserves_file_write.
Qed.
#[local] Hint Resolve preserves_with_open_append_write : frame.

Lemma preserves_print text :
  ignores_clock f → ignores_stdout f → ignores_trace f →
  preserves f (print text).
Proof.
  intros Hc Hs Ht. unfold print. frame.
  intros w o w' H. simplify_eq. apply Hs.
Qed.
#[local] Hint Resolve preserves_print : frame.

Lemma preserves_handle_output output log_file :
  ignores_clock f → ignores_stdout f → ignores_files f → ignores_trace f →
  preserves f (handle_output output log_file).
Proof.
  intros Hc Hs Hf Ht. unfold handle_output.
  frame; auto using preserves_print, preserves_with_open_append_write.
Qed.
#[local] Hint Resolve preserves_handle_output : frame.

Lemma preserves_drain fuel process log_file :
  ignores_clock f → ignores_stdout f → ignores_files f → ignores_trace f →
  preserves f (drain fuel process log_file).
Proof.
  intros Hc Hs Hf Ht. revert process.
  induction fuel as [|fuel IH]; intros process; simpl; [frame|].
  apply preserves_bind; [frame|intros [output p1]].
  apply preserves_bind.
  { destruct (negb (str_truthy output)); [|frame].
    apply preserves_bind; [frame|intros [rc p2]; frame]. }
  intros [stop p2]. destruct stop; [frame|].
  apply preserves_bind; [by apply preserves_handle_output|intros _; apply IH].
Qed.
#[local] Hint Resolve preserves_drain : frame.

Lemma preserves_list_extend l other :
  ignores_heap f → preserves f (list_extend l other).
Proof.
  intros Hh. unfold list_extend. frame.
  intros w o w' H. simplify_eq. apply Hh.
Qed.
#[local] Hint Resolve preserves_list_extend : frame.

Lemma preserves_opt_list_truthy args : preserves f (opt_list_truthy args).
Proof. unfold opt_list_truthy. frame. Qed.
#[local] Hint Resolve preserves_opt_list_truthy : frame.

Lemma preserves_build_command self script_path args :
  ignores_heap f → preserves f (build_command self script_path args).
Proof.
  intros Hh. unfold build_command.
  frame; auto using preserves_list_extend, preserves_opt_list_truthy.
Qed.
#[local] Hint Resolve preserves_build_command : frame.

Lemma preserves_execute_complete process :
  ignores_log f → preserves f (execute_complete process).
Proof.
  intros Hl. unfold execute_complete.
  apply preserves_bind; [frame|intros [c p]].
  unfold logger_error, logger_info. frame.
Qed.
#[local] Hint Resolve preserves_execute_complete : frame.

Lemma preserves_execute_handler script_type e :
  ignores_log f → preserves f (execute_handler script_type e).
Proof. intros Hl. unfold execute_handler, logger_error. frame. Qed.
#[local] Hint Resolve preserves_execute_handler : frame.
End CompoundFrames.


#[export] Hint Resolve preserves_os_mkdir preserves_os_makedirs
  preserves_open_append preserves_file_write preserves_file_close
  preserves_with_open_append_write preserves_print preserves_handle_output
  preserves_drain preserves_list_extend preserves_opt_list_truthy
  preserves_build_command preserves_execute_complete
  preserves_execute_handler : frame.

Lemma preserves_spawn_and_drain {X} (f : World → X) cmd shell log_file fuel :
  ignores_clock f → ignores_stdout f → ignores_files f → ignores_trace f →
  ignores_dirs f → ignores_log f →
  preserves f (spawn_and_drain cmd shell log_file fuel).
Proof.
  intros Hc Hs Hf Ht Hd Hl. unfold spawn_and_drain, logger_info. frame.
Qed.

(** [execute] as a whole touches neither [os.environ] nor what the
    operating system is going to answer. *)
Lemma preserves_execute {X} (f : World → X)
    self script_path script_type args shell log_file fuel :
  ignores_clock f → ignores_stdout f → ignores_files f → ignores_trace f →
  ignores_dirs f → ignores_log f → ignores_heap f →
  preserves f (execute self script_path script_type args shell log_file fuel).
Proof.
  intros Hc Hs Hf Ht Hd Hl Hh.
  unfold execute, execute_body, execute_run.
  frame.
Qed.

(** ** Construction *)

(** C2: outside a container with [CONDA_DEFAULT_ENV] unset or empty the
    constructor raises [ValueError] and produces no executor; on every other
    input it returns a new executor holding the execution context. *)
Theorem init_fails_exactly_without_environment (w : World) :
  (negb (containerized w)
   && unset_or_empty (environ w !! lit "CONDA_DEFAULT_ENV") = true
   ∧ ∃ msg, ScriptExecutor_new w = (Raise (ValueError msg), w))
  ∨ (negb (containerized w)
     && unset_or_empty (environ w !! lit "CONDA_DEFAULT_ENV") = false
     ∧ ∃ self,
         heap w !! self = None
         ∧ ScriptExecutor_new w =
           (Ret self,
            set_heap (<[self := ObjScriptExecutor (containerized w)
                                 (if containerized w then lit "docker-env"
                                  else default [] (environ w !! lit "CONDA_DEFAULT_ENV"))]>
                        (heap w)) w)).
Proof.
  assert (heap w !! fresh (dom (heap w)) = None) as Hfresh.
  { apply not_elem_of_dom, is_fresh. }
  unfold ScriptExecutor_new, bind, os_getenv, os_path_exists, containerized.
  destruct (bool_decide _ || exists_in w _); simpl.
  - right. split; [done|]. eexists. split; [exact Hfresh|done].
  - destruct (environ w !! lit "CONDA_DEFAULT_ENV") as [[|c s]|]; simpl.
    + left. eauto.
    + right. split; [done|]. eexists. split; [exact Hfresh|done].
    + left. eauto.
Qed.

(** ** Command construction *)

Lemma endswith_sh_not_py (s : pystr) :
  endswith s (lit ".sh") = true → endswith s (lit ".py") = false.
Proof.
  unfold endswith. intros H%bool_decide_eq_true.
  apply bool_decide_eq_false.
  change (length (lit ".py")) with (length (lit ".sh")). rewrite H.
  by compute.
Qed.

Lemma new_object_spec (o : PyObj) (w : World) :
  ∃ l, heap w !! l = None
       ∧ new_object o w = (Ret l, set_heap (<[l := o]> (heap w)) w).
Proof.
  exists (fresh (dom (heap w))). split; [|done].
  apply not_elem_of_dom, is_fresh.
Qed.

(** The command built by lines 50-86 is the command of the specification,
    in a list object of its own. *)
Lemma build_command_spec w self d env script_path args :
  heap w !! self = Some (ObjScriptExecutor d env) →
  args_ok w args →
  ∃ cmd,
    heap w !! cmd = None
    ∧ build_command self script_path args w =
      (Ret cmd,
       set_heap (<[cmd := ObjList (spec_command d env script_path (args_items w args))]>
                   (heap w)) w).
Proof.
  intros Hself Hargs.
  set (base := spec_command d env script_path []).
  destruct (new_object_spec (ObjList base) w) as (cmd & Hcmd & Hnew).
  exists cmd. split; [done|].
  set (w1 := set_heap (<[cmd := ObjList base]> (heap w)) w) in *.
  assert (get_in_docker self w = (Ret d, w)) as Hd.
  { unfold get_in_docker. by rewrite Hself. }
  assert (get_conda_env self w = (Ret env, w)) as He.
  { unfold get_conda_env. by rewrite Hself. }
  unfold build_command. rewrite (bind_Ret _ _ _ _ _ Hd).
  erewrite bind_Ret; cycle 1.
  { unfold base, spec_command in Hnew.
    destruct d, (endswith script_path (lit ".py")),
      (endswith script_path (lit ".sh")); simpl in Hnew |- *;
      rewrite ?(bind_Ret _ _ _ _ _ He); exact Hnew. }
  assert (heap w1 !! cmd = Some (ObjList base)) as Hw1.
  { apply lookup_insert_eq. }
  destruct args as [a|]; simpl in Hargs |- *.
  - destruct Hargs as [items Ha].
    assert (a ≠ cmd) as Hne by congruence.
    assert (heap w1 !! a = Some (ObjList items)) as Ha1.
    { unfold w1. simpl. by rewrite lookup_insert_ne. }
    rewrite Ha.
    assert (list_items a w1 = (Ret items, w1)) as Hitems.
    { unfold list_items. by rewrite Ha1. }
    rewrite (bind_Ret _ _ _ _ _ (bind_Ret _ _ _ _ _ Hitems)).
    unfold ret at 1.
    destruct items as [|x items].
    + unfold bind, ret, w1, base, spec_command. by rewrite !app_nil_r.
    + erewrite bind_Ret; cycle 1.
      { unfold list_extend. rewrite (bind_Ret _ _ _ _ _ Hitems).
        unfold bind, list_items. rewrite Hw1. reflexivity. }
      unfold ret, w1, base, spec_command. simpl heap. simpl set_heap.
      rewrite insert_insert_eq, !app_nil_r. reflexivity.
  - unfold bind, ret, w1, base, spec_command. by rewrite !app_nil_r.
Qed.

(** C3: outside a container the command is the run-in-environment prefix
    naming the environment, then the interpreter with the unbuffered flag for
    a [.py] path, the shell with the trace flag for a [.sh] path, the path
    alone otherwise, then the caller's arguments in order; for a [.sh] path
    it is exactly [conda run -n env bash -x path] followed by the
    arguments. *)
Theorem command_outside_container w self env script_path args :
  heap w !! self = Some (ObjScriptExecutor false env) →
  args_ok w args →
  returned_list (build_command self script_path args w)
  = Some ([lit "conda"; lit "run"; lit "-n"; env]
          ++ (if endswith script_path (lit ".py")
              then [lit "python"; lit "-u"; script_path]
              else if endswith script_path (lit ".sh")
              then [lit "bash"; lit "-x"; script_path]
              else [script_path])
          ++ args_items w args)
  ∧ (if endswith script_path (lit ".sh")
     then returned_list (build_command self script_path args w)
          = Some ([lit "conda"; lit "run"; lit "-n"; env;
                   lit "bash"; lit "-x"; script_path] ++ args_items w args)
     else True).
Proof.
  intros Hself Hargs.
  destruct (build_command_spec w self false env script_path args Hself Hargs)
    as (cmd & Hcmd & ->).
  unfold returned_list. simpl heap. rewrite lookup_insert_eq.
  unfold spec_command. split.
  - by rewrite <- app_assoc.
  - destruct (endswith script_path (lit ".sh")) eqn:Hsh; [|done].
    by rewrite (endswith_sh_not_py _ Hsh).
Qed.

(** C4: inside a container the command is [python path] followed by the
    arguments for a [.py] path, and the path followed by the arguments
    otherwise. *)
Theorem command_in_container w self env script_path args :
  heap w !! self = Some (ObjScriptExecutor true env) →
  args_ok w args →
  returned_list (build_command self script_path args w)
  = Some ((if endswith script_path (lit ".py")
           then [lit "python"; script_path]
           else [script_path])
          ++ args_items w args).
Proof.
  intros Hself Hargs.
  destruct (build_command_spec w self true env script_path args Hself Hargs)
    as (cmd & Hcmd & ->).
  unfold returned_list. simpl heap. by rewrite lookup_insert_eq.
Qed.

(** ** The result of [execute] *)

Lemma execute_handler_spec script_type e w :
  execute_handler script_type e w
  = (Ret {| returncode := -1;
            error := Some (internal_failure_message script_type (exc_str e)) |},
     set_log_records
       (log_records w
        ++ [(ERROR, internal_failure_message script_type (exc_str e))]) w).
Proof. reflexivity. Qed.

(** The outcome of [execute] in terms of the outcome of the [try] body. *)
Lemma execute_cases self script_path script_type args shell log_file fuel w :
  raises (execute self script_path script_type args shell log_file fuel w) = false
  ∧ match execute_body self script_path script_type args shell log_file fuel w with
    | (Raise e, w1) =>
        ∃ w', execute self script_path script_type args shell log_file fuel w
              = (Ret {| returncode := -1;
                        error := Some (lit "Error occurred while executing "
                                       ++ script_type ++ lit " script: "
                                       ++ exc_str e) |}, w')
    | (Ret r, w1) =>
        execute self script_path script_type args shell log_file fuel w = (Ret r, w1)
    | (OutOfFuel, w1) =>
        execute self script_path script_type args shell log_file fuel w = (OutOfFuel, w1)
    end.
Proof.
  unfold execute, try_except.
  destruct (execute_body _ _ _ _ _ _ _ w) as [[r|e|] w1]; simpl.
  - done.
  - rewrite execute_handler_spec. split; [done|]. eauto.
  - done.
Qed.

(** C1: [execute] never lets an exception escape; an exception raised
    anywhere in the body of the [try] becomes the returned result with return
    code [-1] and the message naming the script kind and the exception. *)
Theorem execute_never_raises self script_path script_type args shell log_file fuel w :
  raises (execute self script_path script_type args shell log_file fuel w) = false
  ∧ match execute_body self script_path script_type args shell log_file fuel w with
    | (Raise e, w1) =>
        ∃ w', execute self script_path script_type args shell log_file fuel w
              = (Ret {| returncode := -1;
                        error := Some (lit "Error occurred while executing "
                                       ++ script_type ++ lit " script: "
                                       ++ exc_str e) |}, w')
    | (Ret r, w1) =>
        execute self script_path script_type args shell log_file fuel w = (Ret r, w1)
    | (OutOfFuel, w1) =>
        execute self script_path script_type args shell log_file fuel w = (OutOfFuel, w1)
    end.
Proof.
  unfold execute, try_except.
  destruct (execute_body self script_path script_type args shell log_file fuel w)
    as [[r|e|] w1]; simpl.
  - by split.
  - split; [done|]. unfold Exception. rewrite execute_handler_spec.
    eexists. reflexivity.
  - by split.
Qed.

(** The loop is left only after [poll()] has reported a return code. *)
Lemma drain_returns_code fuel : ∀ process log_file w process' w',
  drain fuel process log_file w = (Ret process', w') →
  p_child process' = p_child process
  ∧ ∃ c, p_returncode process' = Some c
         ∧ (p_returncode process = Some c
            ∨ ∃ j, ch_poll (p_child process) j = Ok (Some c)).
Proof.
  induction fuel as [|fuel IH]; intros p lf w p' w' H; simpl in H; [done|].
  apply bind_Ret_inv in H as ([output p1] & w1 & Hread & H).
  unfold Popen_readline in Hread.
  destruct (ch_readline (p_child p) (p_reads p)) as [line|e] eqn:Hline; [|done].
  injection Hread as <- <- <-.
  apply bind_Ret_inv in H as ([stop p2] & w2 & Hpoll & H).
  destruct (negb (str_truthy line)).
  - apply bind_Ret_inv in Hpoll as ([rc p3] & w3 & Hpoll & Hret).
    injection Hret as <- <- <-.
    unfold Popen_poll in Hpoll. simpl in Hpoll.
    destruct (p_returncode p) as [c|] eqn:Hrc.
    + injection Hpoll as <- <- <-. simpl in H.
      injection H as <- <-. simpl. eauto.
    + destruct (ch_poll (p_child p) (p_polls p)) as [[c|]|e] eqn:Hp; [| |done].
      * injection Hpoll as <- <- <-. simpl in H.
        injection H as <- <-. simpl. eauto 10.
      * injection Hpoll as <- <- <-. simpl in H.
        apply bind_Ret_inv in H as ([] & w4 & _ & H).
        apply IH in H as (Hc & c & Hc1 & Hc2). simpl in *. split; [done|].
        exists c. split; [done|]. right. destruct Hc2 as [?|?]; [done|done].
  - injection Hpoll as <- <- <-.
    apply bind_Ret_inv in H as ([] & w4 & _ & H).
    apply IH in H as (Hc & c & Hc1 & Hc2). simpl in *. eauto.
Qed.

(** The return code the loop ends with is the first one the child
    reports. *)
Lemma drain_first_poll fuel : ∀ process log_file w process' w',
  drain fuel process log_file w = (Ret process', w') →
  p_returncode process = None →
  ∃ c j, p_returncode process' = Some c
         ∧ (p_polls process ≤ j)%nat
         ∧ ch_poll (p_child process) j = Ok (Some c)
         ∧ ∀ i, (p_polls process ≤ i < j)%nat →
                ch_poll (p_child process) i = Ok None.
Proof.
  induction fuel as [|fuel IH]; intros p lf w p' w' H Hnone; simpl in H; [done|].
  apply bind_Ret_inv in H as ([output p1] & w1 & Hread & H).
  unfold Popen_readline in Hread.
  destruct (ch_readline (p_child p) (p_reads p)) as [line|e] eqn:Hline; [|done].
  injection Hread as <- <- <-.
  apply bind_Ret_inv in H as ([stop p2] & w2 & Hpoll & H).
  destruct (negb (str_truthy line)).
  - apply bind_Ret_inv in Hpoll as ([rc p3] & w3 & Hpoll & Hret).
    injection Hret as <- <- <-.
    unfold Popen_poll in Hpoll. simpl in Hpoll. rewrite Hnone in Hpoll.
    destruct (ch_poll (p_child p) (p_polls p)) as [[c|]|e] eqn:Hp; [| |done].
    + injection Hpoll as <- <- <-. simpl in H. injection H as <- <-.
      exists c, (p_polls p). simpl. split_and!; [done|lia|done|lia].
    + injection Hpoll as <- <- <-. simpl in H.
      apply bind_Ret_inv in H as ([] & w4 & _ & H).
      apply IH in H as (c & j & Hc & Hle & Hj & Hbefore); [|done].
      simpl in *. exists c, j. split_and!; [done|lia|done|].
      intros i Hi. destruct (decide (i = p_polls p)) as [->|Hne]; [done|].
      apply Hbefore. lia.
  - injection Hpoll as <- <- <-.
    apply bind_Ret_inv in H as ([] & w4 & _ & H).
    apply IH in H as (c & j & Hc & Hle & Hj & Hbefore); [|done].
    simpl in *. eauto 10.
Qed.

Lemma subprocess_Popen_fresh cmd shell w process w' :
  subprocess_Popen cmd shell w = (Ret process, w') →
  p_returncode process = None.
Proof.
  unfold subprocess_Popen. intros (argv & w1 & _ & H)%bind_Ret_inv.
  destruct (os_spawn _ _ _ _); by simplify_eq.
Qed.

(** A run that reaches line 119 has seen the child report a return code. *)
Lemma execute_run_returns_code self script_path args shell log_file fuel w process w1 :
  execute_run self script_path args shell log_file fuel w = (Ret process, w1) →
  ∃ c j, p_returncode process = Some c
         ∧ ch_poll (p_child process) j = Ok (Some c).
Proof.
  unfold execute_run, spawn_and_drain. intros H.
  apply bind_Ret_inv in H as (cmd & wa & _ & H).
  apply bind_Ret_inv in H as (argv & wb & _ & H).
  apply bind_Ret_inv in H as ([] & wc & _ & H).
  apply bind_Ret_inv in H as ([] & wd & _ & H).
  apply bind_Ret_inv in H as (p0 & we & Hspawn & H).
  apply subprocess_Popen_fresh in Hspawn.
  apply drain_returns_code in H as (Hchild & c & Hc & [Hc0|[j Hj]]).
  - congruence.
  - exists c, j. by rewrite Hchild.
Qed.

Lemma execute_complete_spec process c w :
  p_returncode process = Some c →
  ∃ w', execute_complete process w = (Ret (result_of_return_code c), w')
        ∧ heap w' = heap w.
Proof.
  intros Hc. unfold execute_complete, Popen_wait. rewrite Hc.
  unfold bind, ret. simpl.
  destruct (bool_decide (c ≠ 0)); simpl; eauto.
Qed.


(** ** Termination *)

Lemma halts_ret {A} (a : A) : halts (ret a).
Proof. by intros w. Qed.

Lemma halts_raise {A} e : halts (@raise A e).
Proof. by intros w. Qed.

Lemma halts_bind {A B} (m : M A) (k : A → M B) :
  halts m → (∀ a, halts (k a)) → halts (bind m k).
Proof.
  intros Hm Hk w. unfold bind. specialize (Hm w).
  destruct (m w) as [[a|e|] w1]; [apply Hk|done|done].
Qed.

Lemma halts_try {A} (m : M A) handles h :
  halts m → (∀ e, halts (h e)) → halts (try_except m handles h).
Proof.
  intros Hm Hh w. unfold try_except. specialize (Hm w).
  destruct (m w) as [[a|e|] w1]; [done| |done].
  destruct (handles e); [apply Hh|done].
Qed.

Ltac halts_prim :=
  let w := fresh "w" in
  intros w; cbv beta delta [ret raise]; repeat case_match; simplify_eq; done.

Lemma halts_syscall : halts syscall.
Proof. unfold syscall. halts_prim. Qed.
Lemma halts_emit ev : halts (emit ev).
Proof. by intros w. Qed.
Lemma halts_logger_log lvl msg : halts (logger_log lvl msg).
Proof. by intros w. Qed.
Lemma halts_os_path_exists p : halts (os_path_exists p).
Proof. by intros w. Qed.
Lemma halts_os_path_isdir p : halts (os_path_isdir p).
Proof. by intros w. Qed.
Lemma halts_lookup_path p : halts (lookup_path p).
Proof. by intros w. Qed.
Lemma halts_raise_failure {A} failure name : halts (@raise_failure A failure name).
Proof. by intros w. Qed.
Lemma halts_new_object o : halts (new_object o).
Proof. by intros w. Qed.
Lemma halts_list_items l : halts (list_items l).
Proof. unfold list_items. halts_prim. Qed.
Lemma halts_get_in_docker l : halts (get_in_docker l).
Proof. unfold get_in_docker. halts_prim. Qed.
Lemma halts_get_conda_env l : halts (get_conda_env l).
Proof. unfold get_conda_env. halts_prim. Qed.
Lemma halts_Popen_readline p : halts (Popen_readline p).
Proof. unfold Popen_readline. halts_prim. Qed.
Lemma halts_Popen_poll p : halts (Popen_poll p).
Proof. unfold Popen_poll. halts_prim. Qed.
Lemma halts_Popen_wait p : halts (Popen_wait p).
Proof. unfold Popen_wait. halts_prim. Qed.

Create HintDb halting discriminated.

#[export] Hint Resolve halts_ret halts_raise halts_syscall halts_emit
  halts_logger_log halts_os_path_exists halts_os_path_isdir halts_new_object
  halts_lookup_path halts_raise_failure
  halts_list_items halts_get_in_docker halts_get_conda_env
  halts_Popen_readline halts_Popen_poll halts_Popen_wait : halting.

Ltac halting_step :=
  first
    [ apply halts_bind; [|intros ?]
    | apply halts_try; [|intros ?]
    | match goal with
      | |- halts (if ?b then _ else _) => destruct b
      | |- halts (match ?x with _ => _ end) => destruct x
      end ].
Ltac halting := repeat first [ solve [eauto with halting] | halting_step ].

Lemma halts_os_mkdir name : halts (os_mkdir name).
Proof. unfold os_mkdir. halting. by intros w. Qed.
#[export] Hint Resolve halts_os_mkdir : halting.

Lemma halts_os_makedirs_rec depth : ∀ name exist_ok,
  halts (os_makedirs_rec depth name exist_ok).
Proof.
  induction depth as [|depth IH]; intros name exist_ok; simpl; [halting|].
  destruct (makedirs_split name) as [head tail]. halting.
Qed.

Lemma halts_os_makedirs name exist_ok : halts (os_makedirs name exist_ok).
Proof. apply halts_os_makedirs_rec. Qed.
#[export] Hint Resolve halts_os_makedirs : halting.

Lemma halts_subprocess_Popen cmd shell : halts (subprocess_Popen cmd shell).
Proof.
  unfold subprocess_Popen. halting. intros w. by destruct (os_spawn _ _ _ _).
Qed.
#[export] Hint Resolve halts_subprocess_Popen : halting.

Lemma halts_print text : halts (print text).
Proof. unfold print. halting. by intros w. Qed.
#[export] Hint Resolve halts_print : halting.

Lemma halts_with_open_append_write path data :
  halts (with_open_append_write path data).
Proof.
  unfold with_open_append_write. apply halts_bind.
  - unfold open_append. halting. by intros w.
  - intros h w. unfold file_write, file_close, emit, syscall, bind, raise.
    destruct (utf8_encode data); [|done].
    by destruct (io_fault w (clock w)).
Qed.
#[export] Hint Resolve halts_with_open_append_write : halting.

Lemma halts_handle_output output log_file : halts (handle_output output log_file).
Proof. unfold handle_output. halting. Qed.
#[export] Hint Resolve halts_handle_output : halting.

Lemma halts_build_command self script_path args :
  halts (build_command self script_path args).
Proof.
  unfold build_command, opt_list_truthy, list_extend. halting. by intros w.
Qed.
#[export] Hint Resolve halts_build_command : halting.

Lemma halts_execute_complete process : halts (execute_complete process).
Proof.
  unfold execute_complete, logger_error, logger_info.
  apply halts_bind; [halting|intros [c p]; halting].
Qed.

Lemma halts_execute_handler script_type e : halts (execute_handler script_type e).
Proof. unfold execute_handler, logger_error. halting. Qed.
#[export] Hint Resolve halts_execute_complete halts_execute_handler : halting.

Lemma drain_halts n m fuel : ∀ process log_file w,
  child_ends (p_child process) n m →
  ((n - p_reads process) + (m - p_polls process) < fuel)%nat →
  (drain fuel process log_file w).1 ≠ OutOfFuel.
Proof.
  induction fuel as [|fuel IH]; intros p lf w [Hn Hm] Hfuel; [lia|].
  simpl. unfold bind at 1, Popen_readline.
  destruct (ch_readline (p_child p) (p_reads p)) as [line|e] eqn:Hline; [|done].
  unfold ret at 1.
  destruct (str_truthy line) eqn:Hne; simpl.
  - assert (p_reads p < n)%nat.
    { destruct (decide (n ≤ p_reads p)%nat) as [Hle|]; [|lia].
      rewrite (Hn _ Hle) in Hline. by simplify_eq. }
    unfold bind at 1, ret at 1. unfold bind at 1.
    pose proof (halts_handle_output line lf w) as Hh.
    destruct (handle_output line lf w) as [[[]|e|] w1]; [|done|done].
    apply IH; [done|simpl; lia].
  - unfold bind at 1 2, Popen_poll. simpl.
    destruct (p_returncode p) as [c|]; [done|].
    destruct (ch_poll (p_child p) (p_polls p)) as [[c|]|e] eqn:Hp; [done| |done].
    assert (p_polls p < m)%nat.
    { destruct (decide (m ≤ p_polls p)%nat) as [Hle|]; [|lia].
      destruct (Hm _ Hle) as [code Hcode]. congruence. }
    simpl. unfold bind at 1.
    pose proof (halts_handle_output line lf w) as Hh.
    destruct (handle_output line lf w) as [[[]|e|] w1]; [|done|done].
    apply IH; [done|simpl; lia].
Qed.

(** X1: when every child the system may spawn ends (its pipe reaches the
    end after [n] reads and it has exited by the [m]-th poll), a loop
    budget above [n + m] is enough: [execute] returns a result. *)
Lemma execute_returns n m self script_path script_type args shell log_file fuel w :
  (∀ argv sh env child, os_spawn w argv sh env = Ok child → child_ends child n m) →
  (n + m < fuel)%nat →
  ∃ r w', execute self script_path script_type args shell log_file fuel w = (Ret r, w').
Proof.
  intros Hchild Hfuel.
  assert ((execute_body self script_path script_type args shell log_file fuel w).1
          ≠ OutOfFuel) as Hbody.
  { unfold execute_body, execute_run.
    intros Htimeout.
    destruct (bind _ _ w) as [o w1] eqn:Hb. simpl in Htimeout. subst o.
    apply bind_inv in Hb as [(p & w2 & Hrun & Hdone)|[(e & _ & ?)|[Hrun _]]]; [|done|].
    { by pose proof (halts_execute_complete p w2) as Hh; rewrite Hdone in Hh. }
    apply bind_inv in Hrun as [(cmd & wa & Hcmd & Hrun)|[(e & _ & ?)|[Hcmd _]]]; [|done|].
    2: { by pose proof (halts_build_command self script_path args w) as Hh;
           rewrite Hcmd in Hh. }
    assert (os_spawn wa = os_spawn w) as Hos.
    { eapply (preserves_build_command os_spawn); [by intros ??|done]. }
    unfold spawn_and_drain in Hrun.
    apply bind_inv in Hrun as [(argv & wb & Hargv & Hrun)|[(e & _ & ?)|[Hargv _]]]; [|done|].
    2: { by pose proof (halts_list_items cmd wa) as Hh; rewrite Hargv in Hh. }
    apply bind_inv in Hrun as [([] & wc & Hlog & Hrun)|[(e & _ & ?)|[Hlog _]]]; [|done|done].
    apply bind_inv in Hrun as [([] & wd & Hmk & Hrun)|[(e & _ & ?)|[Hmk _]]]; [|done|].
    2: { destruct (opt_str_truthy log_file); [|done].
         by pose proof (halts_os_makedirs (dirname (default [] log_file)) true wc) as Hh;
           rewrite Hmk in Hh. }
    assert (os_spawn wd = os_spawn w) as Hos'.
    { assert (preserves os_spawn
                (if opt_str_truthy log_file
                 then os_makedirs (dirname (default [] log_file)) true
                 else ret tt)) as Hp by frame.
      rewrite (Hp _ _ _ Hmk).
      rewrite (preserves_logger_log os_spawn _ _ ltac:(by intros ??) _ _ _ Hlog).
      by rewrite (preserves_list_items os_spawn _ _ _ _ Hargv). }
    apply bind_inv in Hrun as [(p & we & Hspawn & Hrun)|[(e & _ & ?)|[Hspawn _]]]; [|done|].
    2: { by pose proof (halts_subprocess_Popen cmd shell wd) as Hh;
           rewrite Hspawn in Hh. }
    unfold subprocess_Popen in Hspawn.
    apply bind_Ret_inv in Hspawn as (argv' & wf & Hargv' & Hspawn).
    destruct (os_spawn wf argv' shell (environ wf)) as [child|e] eqn:Hsp; [|done].
    injection Hspawn as <- <-.
    assert (wf = wd) as ->.
    { unfold list_items in Hargv'. repeat case_match; by simplify_eq. }
    rewrite Hos' in Hsp. apply Hchild in Hsp.
    eapply (drain_halts n m fuel (mkPopen child 0 0 None) log_file);
      [exact Hsp|simpl; lia|].
    by rewrite Hrun. }
  destruct (execute_cases self script_path script_type args shell log_file fuel w)
    as [_ Hexec].
  destruct (execute_body _ _ _ _ _ _ _ w) as [[r|e|] w1]; [eauto| |done].
  destruct Hexec as [w' ->]. eauto.
Qed.

(** ** The log directory *)

Lemma take_while_all {A} (p : A → bool) (l : list A) :
  (∀ x, x ∈ l → p x = true) → take_while p l = l.
Proof.
  induction l as [|x l IH]; intros H; simpl; [done|].
  rewrite (H x) by (by left). f_equal. apply IH. intros y Hy. apply H. by right.
Qed.

(** A path without separator has no directory part. *)
Lemma dirname_bare (p : pystr) : sep ∉ p → dirname p = [].
Proof.
  intros Hsep. unfold dirname, path_split.
  rewrite take_while_all.
  - rewrite reverse_involutive, Nat.sub_diag. done.
  - intros c Hc. rewrite elem_of_reverse in Hc. unfold is_sep.
    apply negb_true_iff, N.eqb_neq. by intros ->.
Qed.

(** [os.makedirs("")] raises, and creates nothing. *)
Lemma os_makedirs_empty exist_ok w :
  ∃ e w', os_makedirs [] exist_ok w = (Raise e, w') ∧ trace w' = trace w.
Proof.
  unfold os_makedirs. simpl.
  unfold bind at 1, os_path_exists at 1. simpl. unfold bind at 1, ret at 1.
  unfold try_except, os_mkdir, bind at 1, syscall.
  destruct (io_fault w (clock w)) as [f|].
  - destruct (is_OSError _); [|eauto].
    unfold bind, os_path_isdir, isdir_in. simpl. rewrite orb_true_r.
    unfold raise. eauto.
  - simpl. unfold raise_failure, bind, os_path_isdir, isdir_in, raise. simpl.
    rewrite orb_true_r. eauto.
Qed.

(** C9: with a log file that is a bare file name, [execute] returns the
    internal-failure result and the child is never spawned: nothing happens
    to the outside world, because [os.makedirs] of the empty directory name
    raises. *)
Theorem bare_log_file_never_spawns
    self script_path script_type args shell (log_file : pystr) fuel w :
  log_file ≠ [] →
  sep ∉ log_file →
  ∃ msg w',
    execute self script_path script_type args shell (Some log_file) fuel w
    = (Ret {| returncode := -1; error := Some msg |}, w')
    ∧ trace w' = trace w
    ∧ dirname log_file = []
    ∧ raises (os_makedirs (dirname log_file) true w') = true.
Proof.
  intros Hne Hsep.
  pose proof (dirname_bare log_file Hsep) as Hdir.
  assert (∃ e w1, execute_body self script_path script_type args shell
                    (Some log_file) fuel w = (Raise e, w1)
                  ∧ trace w1 = trace w) as (e & w1 & Hbody & Htrace).
  { unfold execute_body, execute_run. setoid_rewrite bind_assoc.
    pose proof (halts_build_command self script_path args w) as Hh.
    destruct (build_command self script_path args w) as [[cmd|e|] wa] eqn:Hcmd;
      [|clear Hh|done].
    2: { exists e, wa. split; [by rewrite (bind_Raise _ _ _ _ _ Hcmd)|].
         eapply (preserves_build_command trace); [by intros ??|done]. }
    assert (trace wa = trace w) as Hta.
    { eapply (preserves_build_command trace); [by intros ??|done]. }
    rewrite (bind_Ret _ _ _ _ _ Hcmd). clear Hh.
    unfold spawn_and_drain. setoid_rewrite bind_assoc.
    pose proof (halts_list_items cmd wa) as Hh.
    destruct (list_items cmd wa) as [[argv|e|] wb] eqn:Hargv; [|clear Hh|done].
    2: { exists e, wb. split; [by rewrite (bind_Raise _ _ _ _ _ Hargv)|].
         rewrite <- Hta. by eapply (preserves_list_items trace). }
    assert (trace wb = trace w) as Htb.
    { rewrite <- Hta. by eapply (preserves_list_items trace). }
    rewrite (bind_Ret _ _ _ _ _ Hargv).
    destruct log_file as [|c log_file]; [done|]. simpl opt_str_truthy.
    simpl default. rewrite Hdir.
    set (wc := set_log_records
                 (log_records wb
                  ++ [(INFO, lit "Executing command: " ++ join (lit " ") argv)]) wb).
    destruct (os_makedirs_empty true wc) as (e & wd & Hmk & Htd).
    exists e, wd. split; [|by rewrite Htd].
    setoid_rewrite bind_assoc.
    unfold logger_info, logger_log. unfold bind at 1. fold wc.
    setoid_rewrite bind_assoc.
    by rewrite (bind_Raise _ _ _ _ _ Hmk). }
  destruct (execute_cases self script_path script_type args shell
              (Some log_file) fuel w) as [_ Hexec].
  rewrite Hbody in Hexec. destruct Hexec as [w' Hexec].
  exists (lit "Error occurred while executing " ++ script_type
          ++ lit " script: " ++ exc_str e), w'.
  split; [done|].
  assert (trace w' = trace w) as ->.
  { unfold execute, try_except in Hexec. rewrite Hbody in Hexec. simpl in Hexec.
    rewrite execute_handler_spec in Hexec. by simplify_eq. }
  split; [done|]. split; [done|].
  rewrite Hdir. by destruct (os_makedirs_empty true w') as (? & ? & -> & _).
Qed.

(** ** What [execute] leaves alone *)

Lemma returned_list_build_command w self d env script_path args :
  heap w !! self = Some (ObjScriptExecutor d env) →
  args_ok w args →
  returned_list (build_command self script_path args w)
  = Some (spec_command d env script_path (args_items w args)).
Proof.
  intros Hself Hargs.
  destruct (build_command_spec w self d env script_path args Hself Hargs)
    as (cmd & Hcmd & ->).
  unfold returned_list. simpl heap. by rewrite lookup_insert_eq.
Qed.

(** [execute] changes the heap by one new object, the command list. *)
Lemma execute_heap w self d env script_path script_type args shell log_file fuel o w' :
  heap w !! self = Some (ObjScriptExecutor d env) →
  args_ok w args →
  execute self script_path script_type args shell log_file fuel w = (o, w') →
  ∃ cmd, heap w !! cmd = None
         ∧ heap w' = <[cmd := ObjList (spec_command d env script_path
                                         (args_items w args))]> (heap w).
Proof.
  intros Hself Hargs Hexec.
  destruct (build_command_spec w self d env script_path args Hself Hargs)
    as (cmd & Hcmd & Hbuild).
  exists cmd. split; [done|].
  set (wa := set_heap _ w) in Hbuild.
  assert (preserves heap
            (try_except
               (process <- spawn_and_drain cmd shell log_file fuel ;;
                execute_complete process)
               Exception (execute_handler script_type))) as Hrest.
  { apply preserves_try; [|intros e; frame].
    apply preserves_bind; [|intros p; frame].
    apply preserves_spawn_and_drain; by intros ??. }
  assert (execute self script_path script_type args shell log_file fuel w
          = try_except
              (process <- spawn_and_drain cmd shell log_file fuel ;;
               execute_complete process)
              Exception (execute_handler script_type) wa) as Heq.
  { unfold execute, try_except, execute_body, execute_run.
    by rewrite bind_assoc, (bind_Ret _ _ _ _ _ Hbuild). }
  rewrite Heq in Hexec. by rewrite (Hrest _ _ _ Hexec).
Qed.

(** C10: [execute] changes neither the executor object nor the caller's
    list of arguments, nor any other object that existed before the call;
    the command built by a second call is the command built by the first. *)
Theorem execute_leaves_context_and_args
    w self d env script_path script_type args shell log_file fuel o w' :
  heap w !! self = Some (ObjScriptExecutor d env) →
  args_ok w args →
  execute self script_path script_type args shell log_file fuel w = (o, w') →
  heap w ⊆ heap w'
  ∧ heap w' !! self = Some (ObjScriptExecutor d env)
  ∧ args_ok w' args
  ∧ args_items w' args = args_items w args
  ∧ returned_list (build_command self script_path args w')
    = returned_list (build_command self script_path args w)
  ∧ returned_list (build_command self script_path args w)
    = Some (spec_command d env script_path (args_items w args)).
Proof.
  intros Hself Hargs Hexec.
  destruct (execute_heap _ _ _ _ _ _ _ _ _ _ _ _ Hself Hargs Hexec)
    as (cmd & Hcmd & Hheap).
  assert (heap w ⊆ heap w') as Hsub.
  { rewrite Hheap. by apply insert_subseteq. }
  assert (heap w' !! self = Some (ObjScriptExecutor d env)) as Hself'.
  { by eapply lookup_weaken. }
  assert (args_ok w' args) as Hargs'.
  { destruct args as [a|]; [|done]. destruct Hargs as [items Ha].
    exists items. by eapply lookup_weaken. }
  assert (args_items w' args = args_items w args) as Hitems.
  { destruct args as [a|]; [|done]. destruct Hargs as [items Ha]. simpl.
    by rewrite Ha, (lookup_weaken _ _ _ _ Ha Hsub). }
  repeat split; try done.
  - rewrite (returned_list_build_command w' self d env) by done.
    rewrite (returned_list_build_command w self d env) by done.
    by rewrite Hitems.
  - by apply returned_list_build_command.
Qed.

(** ** Forwarding the child's output *)

Lemma syscall_Ret w u w' :
  syscall w = (Ret u, w') → w' = set_clock (S (clock w)) w.
Proof. unfold syscall. destruct (io_fault w (clock w)); by intros [=]. Qed.

Lemma print_spec text w w' :
  print text w = (Ret tt, w') →
  sys_stdout w' = sys_stdout w ++ text ++ newline
  ∧ trace w' = trace w ++ [EvPrint text]
  ∧ fs_files w' = fs_files w
  ∧ cwd w' = cwd w.
Proof.
  unfold print. intros H.
  apply bind_Ret_inv in H as ([] & w1 & ->%syscall_Ret & H).
  unfold bind, emit in H. by simplify_eq.
Qed.

(** Where a walk ends is decided by the names. *)
Lemma walk_node w cs : ∀ cur n,
  walk w cur cs = IsDir n ∨ walk w cur cs = IsFile n ∨ walk w cur cs = Absent n →
  n = node_from cur cs.
Proof.
  induction cs as [|c cs IH]; intros cur n; simpl.
  { intros [H|[H|H]]; by simplify_eq. }
  destruct (is_dir_node w (step cur c)); [apply IH|].
  destruct (is_file_node w (step cur c)), cs;
    intros [H|[H|H]]; by simplify_eq.
Qed.

Lemma walk_IsFile w cs : ∀ cur n,
  walk w cur cs = IsFile n → is_file_node w n = true.
Proof.
  induction cs as [|c cs IH]; intros cur n; simpl; [done|].
  destruct (is_dir_node w (step cur c)); [apply IH|].
  destruct (is_file_node w (step cur c)) eqn:Hf, cs; intros H; by simplify_eq.
Qed.

Lemma walk_Absent w cs : ∀ cur n,
  walk w cur cs = Absent n → is_dir_node w n = false ∧ is_file_node w n = false.
Proof.
  induction cs as [|c cs IH]; intros cur n; simpl; [done|].
  destruct (is_dir_node w (step cur c)) eqn:Hd; [apply IH|].
  destruct (is_file_node w (step cur c)) eqn:Hf, cs; intros H; by simplify_eq.
Qed.

Lemma is_file_node_bytes w n :
  is_file_node w n = true → fs_files w !! n = Some (file_bytes w n).
Proof.
  unfold is_file_node, file_bytes. intros [_ H]%andb_true_iff.
  apply bool_decide_eq_true in H as [b Hb]. by rewrite Hb.
Qed.

Lemma not_file_node_bytes w n :
  is_dir_node w n = false → is_file_node w n = false → file_bytes w n = [].
Proof.
  unfold is_file_node, file_bytes. intros -> H. simpl in H.
  apply bool_decide_eq_false in H.
  destruct (fs_files w !! n) eqn:E; [|done]. destruct H. eauto.
Qed.

(** A file opened for appending is the file its path names; it exists from
    then on, with the bytes it had. *)
Lemma open_append_spec path w h w' :
  open_append path w = (Ret h, w') →
  h = mkFileHandle path (path_node w path)
  ∧ sys_stdout w' = sys_stdout w
  ∧ trace w' = trace w ++ [EvOpen path]
  ∧ cwd w' = cwd w
  ∧ fs_files w' !! path_node w path = Some (file_bytes w (path_node w path))
  ∧ ∀ b, <[path_node w path := b]> (fs_files w') = <[path_node w path := b]> (fs_files w).
Proof.
  unfold open_append. intros H.
  apply bind_Ret_inv in H as ([] & w1 & ->%syscall_Ret & H).
  destruct (negb (str_truthy path)); [done|].
  apply bind_Ret_inv in H as (r & w2 & Hr & H).
  unfold lookup_path in Hr. injection Hr as <- <-.
  set (w1 := set_clock (S (clock w)) w) in *.
  assert (path_node w path = path_node w1 path) as -> by done.
  assert (file_bytes w (path_node w1 path) = file_bytes w1 (path_node w1 path))
    as -> by done.
  change (fs_files w) with (fs_files w1).
  change (trace w) with (trace w1).
  destruct (resolve w1 path) as [n|n|n| |] eqn:Hres; try done.
  - assert (n = path_node w1 path) as Hn
      by (apply (walk_node w1); unfold resolve in Hres; eauto).
    apply walk_IsFile, is_file_node_bytes in Hres.
    rewrite <- Hn. clear Hn.
    destruct (ends_with_sep path); [done|].
    unfold bind, emit, ret in H. by simplify_eq.
  - assert (n = path_node w1 path) as Hn
      by (apply (walk_node w1); unfold resolve in Hres; eauto).
    apply walk_Absent in Hres as [Hd Hf].
    rewrite <- Hn, (not_file_node_bytes _ _ Hd Hf). clear Hn.
    destruct (ends_with_sep path); [done|].
    unfold bind, emit, ret in H. simplify_eq. simpl.
    rewrite lookup_insert_eq. split_and!; try done.
    intros b. by rewrite insert_insert_eq.
Qed.

Lemma with_open_append_write_spec path data w w' :
  with_open_append_write path data w = (Ret tt, w') →
  sys_stdout w' = sys_stdout w
  ∧ trace w' = trace w ++ [EvOpen path; EvWrite path data; EvClose path]
  ∧ cwd w' = cwd w
  ∧ utf8_encode data = Some (utf8 data)
  ∧ fs_files w' =
    <[path_node w path := file_bytes w (path_node w path) ++ utf8 data]> (fs_files w).
Proof.
  unfold with_open_append_write. intros H.
  apply bind_Ret_inv in H as (f & w1 & Hopen & H).
  apply open_append_spec in Hopen as (-> & Hout & Htr & Hcwd & Hlook & Hins).
  destruct (file_write _ data w1) as [[[]|e|] w2] eqn:Hwrite.
  - unfold file_write, utf8 in *.
    destruct (utf8_encode data) as [b|]; [|done]. simpl in *.
    apply bind_Ret_inv in Hwrite as ([] & w3 & ->%syscall_Ret & Hwrite).
    unfold bind, file_close, emit in *. simplify_eq. simpl.
    rewrite Hout, Htr, Hlook. simpl. rewrite Hins, <- !app_assoc. done.
  - unfold bind, file_close, emit in H. done.
  - done.
Qed.

(** One line: the stripped line goes to the console, the bytes of the raw
    line to the end of the log file, which is opened and closed around that
    write. *)
Lemma handle_output_spec output log_file w w' :
  handle_output output log_file w = (Ret tt, w') →
  str_truthy output = true →
  sys_stdout w' = sys_stdout w ++ strip output ++ newline
  ∧ trace w' = trace w ++ forwarded log_file output
  ∧ cwd w' = cwd w
  ∧ (opt_str_truthy log_file = true → utf8_encode output = Some (utf8 output))
  ∧ fs_files w' =
    if opt_str_truthy log_file
    then <[path_node w (default [] log_file) :=
             file_bytes w (path_node w (default [] log_file)) ++ utf8 output]>
           (fs_files w)
    else fs_files w.
Proof.
  unfold handle_output, forwarded. intros H Hne. rewrite Hne in H.
  apply bind_Ret_inv in H as ([] & w1 & (Hout & Htr & Hfiles & Hcwd)%print_spec & H).
  destruct (opt_str_truthy log_file).
  - apply with_open_append_write_spec in H as (Hout' & Htr' & Hcwd' & Henc & Hfiles').
    unfold path_node, start, file_bytes in *.
    rewrite Hout', Htr', Hfiles', Hcwd', Hout, Htr, Hfiles, Hcwd, <- app_assoc.
    done.
  - unfold ret in H. by simplify_eq.
Qed.

Lemma handle_output_empty log_file w : handle_output [] log_file w = (Ret tt, w).
Proof. reflexivity. Qed.

(** The whole loop: every line read is forwarded, in order. *)
Lemma drain_effects fuel : ∀ process log_file w process' w',
  drain fuel process log_file w = (Ret process', w') →
  (p_reads process < p_reads process')%nat
  ∧ sys_stdout w' =
    sys_stdout w
    ++ concat ((λ line, strip line ++ newline)
               <$> lines_read (p_child process) (p_reads process)
                     (p_reads process' - p_reads process))
  ∧ trace w' =
    trace w
    ++ concat (forwarded log_file
               <$> lines_read (p_child process) (p_reads process)
                     (p_reads process' - p_reads process))
  ∧ cwd w' = cwd w
  ∧ (opt_str_truthy log_file = true →
     Forall (λ line, utf8_encode line = Some (utf8 line))
            (lines_read (p_child process) (p_reads process)
               (p_reads process' - p_reads process)))
  ∧ fs_files w' =
    if opt_str_truthy log_file
       && bool_decide (lines_read (p_child process) (p_reads process)
                         (p_reads process' - p_reads process) ≠ [])
    then <[path_node w (default [] log_file) :=
             file_bytes w (path_node w (default [] log_file))
             ++ concat (utf8 <$> lines_read (p_child process) (p_reads process)
                                   (p_reads process' - p_reads process))]>
           (fs_files w)
    else fs_files w.
Proof.
  induction fuel as [|fuel IH]; intros p lf w p' w' H; simpl in H; [done|].
  apply bind_Ret_inv in H as ([output p1] & w1 & Hread & H).
  unfold Popen_readline in Hread.
  destruct (ch_readline (p_child p) (p_reads p)) as [line|e] eqn:Hline; [|done].
  injection Hread as <- <- <-.
  apply bind_Ret_inv in H as ([stop p2] & w2 & Hpoll & H).
  assert (w2 = w ∧ p_child p2 = p_child p ∧ p_reads p2 = S (p_reads p)
          ∧ (stop = true → str_truthy line = false))
    as (-> & Hchild & Hreads & Hstop).
  { destruct (str_truthy line); simpl in Hpoll.
    - by injection Hpoll as <- <- <-.
    - apply bind_Ret_inv in Hpoll as ([rc p3] & w3 & Hpoll & Hret).
      injection Hret as <- <- <-.
      unfold Popen_poll in Hpoll. simpl in Hpoll.
      destruct (p_returncode p);
        [|destruct (ch_poll (p_child p) (p_polls p)); [|done]];
        unfold ret in Hpoll; by simplify_eq. }
  destruct stop.
  - injection H as <- <-. rewrite Hreads.
    replace (S (p_reads p) - p_reads p)%nat with 1%nat by lia.
    simpl. rewrite Hline. destruct line as [|c line]; [|by discriminate Hstop].
    simpl. rewrite andb_false_r, !app_nil_r. split; [lia|done].
  - apply bind_Ret_inv in H as ([] & w3 & Hout & H).
    apply IH in H as (Hlt & Hstd & Htr & Hcwd & Henc & Hfiles).
    rewrite Hchild, Hreads in *.
    replace (p_reads p' - p_reads p)%nat with (S (p_reads p' - S (p_reads p)))
      by lia.
    set (rest := lines_read (p_child p) (S (p_reads p))
                   (p_reads p' - S (p_reads p))) in *.
    simpl. rewrite Hline. fold rest. split; [lia|].
    destruct line as [|c line].
    + rewrite handle_output_empty in Hout. injection Hout as <-. done.
    + apply handle_output_spec in Hout as (Hstd1 & Htr1 & Hcwd1 & Henc1 & Hfiles1);
        [|done].
      assert (path_node w3 (default [] lf) = path_node w (default [] lf)) as Hnode.
      { unfold path_node, start. by rewrite Hcwd1. }
      rewrite Hnode in Hfiles. unfold file_bytes in *.
      rewrite Hstd, Htr, Hfiles, Hstd1, Htr1, Hfiles1, Hcwd, Hcwd1. simpl.
      rewrite <- !app_assoc. split; [done|]. split; [done|]. split; [done|].
      split; [intros Hlf; constructor; auto|].
      destruct (opt_str_truthy lf); simpl; [|done].
      rewrite lookup_insert_eq. simpl.
      case_bool_decide.
      * by rewrite insert_insert_eq, <- !app_assoc.
      * assert (rest = []) as -> by (by destruct rest).
        simpl. by rewrite !app_nil_r.
Qed.

(** ** Preparing the log directory *)

Lemma only_mkdirs_preserves {A} (m : M A) : preserves trace m → only_mkdirs m.
Proof. intros Hm w o w' H. exists []. rewrite (Hm _ _ _ H). by rewrite app_nil_r. Qed.

Lemma only_mkdirs_bind {A B} (m : M A) (k : A → M B) :
  only_mkdirs m → (∀ a, only_mkdirs (k a)) → only_mkdirs (bind m k).
Proof.
  intros Hm Hk w o w' H.
  apply bind_inv in H as [(a & w1 & H1 & H2)|[(e & H1 & _)|[H1 _]]]; [|eauto..].
  destruct (Hm _ _ _ H1) as [mk1 E1]. destruct (Hk _ _ _ _ H2) as [mk2 E2].
  exists (mk1 ++ mk2). by rewrite E2, E1, fmap_app, app_assoc.
Qed.

Lemma only_mkdirs_try {A} (m : M A) handles h :
  only_mkdirs m → (∀ e, only_mkdirs (h e)) → only_mkdirs (try_except m handles h).
Proof.
  intros Hm Hh w o w' H. unfold try_except in H.
  destruct (m w) as [[a|e|] w1] eqn:E; [simplify_eq; eauto| |simplify_eq; eauto].
  destruct (handles e); [|simplify_eq; eauto].
  destruct (Hm _ _ _ E) as [mk1 E1]. destruct (Hh _ _ _ _ H) as [mk2 E2].
  exists (mk1 ++ mk2). by rewrite E2, E1, fmap_app, app_assoc.
Qed.

Lemma only_mkdirs_os_mkdir name : only_mkdirs (os_mkdir name).
Proof.
  unfold os_mkdir.
  apply only_mkdirs_bind; [apply only_mkdirs_preserves; frame|intros _].
  destruct (negb _); [apply only_mkdirs_preserves; frame|].
  apply only_mkdirs_bind; [apply only_mkdirs_preserves; frame|intros r].
  destruct r as [n|n|n| |].
  1,2,4,5: apply only_mkdirs_preserves; frame.
  apply only_mkdirs_bind; [apply only_mkdirs_preserves; by intros w o w' [= _ <-]|].
  intros _ w o w' [= _ <-]. by exists [name].
Qed.

Lemma only_mkdirs_os_makedirs_rec depth : ∀ name exist_ok,
  only_mkdirs (os_makedirs_rec depth name exist_ok).
Proof.
  induction depth as [|depth IH]; intros name exist_ok; simpl.
  { apply only_mkdirs_preserves. frame. }
  destruct (makedirs_split name) as [head tail].
  apply only_mkdirs_bind; [apply only_mkdirs_preserves; frame|intros b].
  apply only_mkdirs_bind.
  - destruct (_ && _); [|apply only_mkdirs_preserves; frame].
    apply only_mkdirs_bind; [|intros _; apply only_mkdirs_preserves; frame].
    apply only_mkdirs_try; [apply IH|intros e; apply only_mkdirs_preserves; frame].
  - intros []; [apply only_mkdirs_preserves; frame|].
    apply only_mkdirs_try; [apply only_mkdirs_os_mkdir|].
    intros e. apply only_mkdirs_preserves. frame.
Qed.

(** *** The names of a path *)

Lemma take_drop_while {A} (p : A → bool) (l : list A) :
  take_while p l ++ drop_while p l = l.
Proof.
  induction l as [|x l IH]; simpl; [done|].
  destruct (p x); simpl; [by rewrite IH|done].
Qed.

Lemma take_while_Forall {A} (p : A → bool) (l : list A) :
  Forall (λ x, p x = true) (take_while p l).
Proof.
  induction l as [|x l IH]; simpl; [done|].
  destruct (p x) eqn:E; [by constructor|done].
Qed.

Lemma drop_while_head {A} (p : A → bool) (l : list A) x l' :
  drop_while p l = x :: l' → p x = false.
Proof.
  induction l as [|y l IH]; simpl; [done|].
  destruct (p y) eqn:E; [done|]. by intros [= <- _].
Qed.

Lemma all_sep_Forall (s : pystr) :
  all_sep s = true ↔ Forall (λ c, is_sep c = true) s.
Proof.
  unfold all_sep. induction s as [|c s IH]; simpl; [done|].
  rewrite andb_true_iff, IH, Forall_cons. done.
Qed.

Lemma comps_not_nil (p : pystr) : comps p ≠ [].
Proof.
  induction p as [|c p IH]; simpl; [done|].
  destruct (is_sep c); [done|]. by destruct (comps p).
Qed.

(** A separator ends one piece and begins the next. *)
Lemma comps_app_sep (x y : pystr) c :
  is_sep c = true → comps (x ++ c :: y) = comps x ++ comps y.
Proof.
  intros Hc. induction x as [|d x IH]; simpl; [by rewrite Hc|].
  rewrite IH. destruct (is_sep d); [done|].
  pose proof (comps_not_nil x). by destruct (comps x).
Qed.

Lemma real_comps_app_sep (x y : pystr) c :
  is_sep c = true → real_comps (x ++ c :: y) = real_comps x ++ real_comps y.
Proof.
  intros Hc. unfold real_comps. by rewrite comps_app_sep, filter_app.
Qed.

Lemma real_comps_nil : real_comps [] = [].
Proof. reflexivity. Qed.

Lemma real_comps_seps (ss y : pystr) :
  all_sep ss = true → real_comps (ss ++ y) = real_comps y.
Proof.
  induction ss as [|c ss IH]; [done|].
  intros H. simpl in H. apply andb_true_iff in H as [Hc Hss].
  change ((c :: ss) ++ y) with ([] ++ c :: (ss ++ y)).
  rewrite real_comps_app_sep, real_comps_nil by done. by apply IH.
Qed.

Lemma real_comps_split (h ss t : pystr) :
  all_sep ss = true → ss ≠ [] ∨ all_sep h = true →
  real_comps (h ++ ss ++ t) = real_comps h ++ real_comps t.
Proof.
  intros Hss [Hne|Hh].
  - destruct ss as [|c ss]; [done|]. simpl in Hss.
    apply andb_true_iff in Hss as [Hc Hss].
    change (h ++ (c :: ss) ++ t) with (h ++ c :: (ss ++ t)).
    by rewrite real_comps_app_sep, real_comps_seps.
  - rewrite (real_comps_seps h), (real_comps_seps ss) by done.
    rewrite <- (app_nil_r h), (real_comps_seps h) by done. done.
Qed.

(** A name without separator is one piece. *)
Lemma real_comps_name (t : pystr) :
  t ≠ [] → Forall (λ c, is_sep c = false) t → real_comps t = [t].
Proof.
  intros Hne Ht.
  assert (comps t = [t]) as Hcomps.
  { clear Hne. induction Ht as [|c t Hc Ht IH]; simpl; [done|].
    by rewrite Hc, IH. }
  unfold real_comps. rewrite Hcomps. by destruct t.
Qed.

(** The path is its head, separators, and its tail. *)
Lemma path_split_spec (p h t : pystr) :
  path_split p = (h, t) →
  ∃ ss, p = h ++ ss ++ t
        ∧ all_sep ss = true
        ∧ Forall (λ c, is_sep c = false) t
        ∧ (ss ≠ [] ∨ all_sep h = true)
        ∧ (h = [] → ss = []).
Proof.
  unfold path_split.
  set (notsep := λ c, negb (is_sep c)).
  pose proof (take_drop_while notsep (reverse p)) as Hp.
  set (tw := take_while notsep (reverse p)) in *.
  set (dw := drop_while notsep (reverse p)) in *.
  apply (f_equal reverse) in Hp.
  rewrite reverse_involutive, reverse_app in Hp.
  assert (take (length p - length (reverse tw)) p = reverse dw) as ->.
  { rewrite <- Hp at 2. rewrite <- Hp at 1.
    rewrite length_app, Nat.add_sub. by rewrite take_app_length. }
  assert (Forall (λ c, is_sep c = false) (reverse tw)) as Htail.
  { apply Forall_reverse. eapply Forall_impl; [apply take_while_Forall|].
    intros c Hc. by apply negb_true_iff. }
  destruct (str_truthy (reverse dw) && negb (all_sep (reverse dw))) eqn:Hcase;
    intros [= <- <-].
  - apply andb_true_iff in Hcase as [Hne Hnot]. apply negb_true_iff in Hnot.
    unfold rstrip_chars. rewrite reverse_involutive.
    pose proof (take_drop_while is_sep dw) as Hdw.
    exists (reverse (take_while is_sep dw)). split_and!.
    + rewrite app_assoc, <- reverse_app, Hdw. done.
    + apply all_sep_Forall, Forall_reverse, take_while_Forall.
    + done.
    + left. destruct dw as [|c dw'] eqn:Edw; [done|].
      apply drop_while_head in Edw. apply negb_false_iff in Edw.
      simpl. rewrite Edw. simpl. rewrite reverse_cons.
      intros Heq. symmetry in Heq. by apply app_cons_not_nil in Heq.
    + intros Hnil. apply (f_equal reverse) in Hnil.
      rewrite reverse_involutive in Hnil. simpl in Hnil.
      rewrite Hnil, app_nil_r in Hdw.
      assert (all_sep (reverse dw) = true) as Hall; [|congruence].
      apply all_sep_Forall, Forall_reverse. rewrite <- Hdw.
      apply take_while_Forall.
  - exists []. split_and!; try done.
    right. apply andb_false_iff in Hcase as [Hc|Hc].
    + by destruct (reverse dw).
    + by apply negb_false_iff.
Qed.

Lemma path_split_comps (p h t : pystr) :
  path_split p = (h, t) →
  real_comps p = real_comps h ++ real_comps t
  ∧ is_abs p = is_abs h
  ∧ Forall (λ c, is_sep c = false) t.
Proof.
  intros (ss & -> & Hss & Ht & Hor & Hnil)%path_split_spec. split_and!.
  - by apply real_comps_split.
  - destruct h as [|c h]; [|done]. rewrite Hnil by done. simpl.
    destruct Ht as [|c t Hc Ht]; done.
  - done.
Qed.

(** The names of a path are those of its head and its tail, as
    [os.makedirs] splits it. *)
Lemma makedirs_split_comps (name h t : pystr) :
  makedirs_split name = (h, t) → t ≠ [] →
  real_comps name = real_comps h ++ [t] ∧ is_abs name = is_abs h.
Proof.
  unfold makedirs_split. intros H Hne.
  destruct (path_split name) as [h1 t1] eqn:E1.
  apply path_split_comps in E1 as (Hc1 & Ha1 & Ht1).
  destruct t1 as [|c t1]; simpl in H.
  - apply path_split_comps in H as (Hc & Ha & Ht).
    rewrite Hc1, Ha1, Hc, Ha, (real_comps_name t) by done.
    by rewrite app_nil_r.
  - injection H as <- <-. by rewrite Hc1, (real_comps_name (c :: t1)).
Qed.

(** *** Walking the file system *)

(** Resolution looks at the current directory, the directories and the
    files, and at nothing else. *)
Lemma is_dir_node_ext w w' n :
  cwd w' = cwd w → fs_dirs w' = fs_dirs w →
  is_dir_node w' n = is_dir_node w n.
Proof. unfold is_dir_node. by intros -> ->. Qed.

Lemma is_file_node_ext w w' n :
  cwd w' = cwd w → fs_dirs w' = fs_dirs w → fs_files w' = fs_files w →
  is_file_node w' n = is_file_node w n.
Proof.
  unfold is_file_node. intros Hc Hd ->. by rewrite (is_dir_node_ext w w').
Qed.

Lemma walk_ext w w' cs : ∀ cur,
  cwd w' = cwd w → fs_dirs w' = fs_dirs w → fs_files w' = fs_files w →
  walk w' cur cs = walk w cur cs.
Proof.
  induction cs as [|c cs IH]; intros cur Hc Hd Hf; simpl; [done|].
  rewrite (is_dir_node_ext w w'), (is_file_node_ext w w'), IH by done. done.
Qed.

Lemma resolve_ext w w' p :
  cwd w' = cwd w → fs_dirs w' = fs_dirs w → fs_files w' = fs_files w →
  resolve w' p = resolve w p.
Proof.
  intros Hc Hd Hf. unfold resolve, start. rewrite Hc. by apply walk_ext.
Qed.

Lemma is_dir_node_mono w w' n :
  cwd w' = cwd w → fs_dirs w ⊆ fs_dirs w' →
  is_dir_node w n = true → is_dir_node w' n = true.
Proof.
  unfold is_dir_node. intros Hcwd Hsub H.
  apply bool_decide_eq_true in H as (d & Hin & Hpre).
  apply bool_decide_eq_true. exists d. split; [|done].
  rewrite Hcwd. apply elem_of_union in Hin as [Hin|Hin]; apply elem_of_union; auto.
Qed.

Lemma is_dir_node_in w n : n ∈ fs_dirs w → is_dir_node w n = true.
Proof.
  intros H. apply bool_decide_eq_true. exists n. split; [set_solver|done].
Qed.

(** Resolution starts in a directory. *)
Lemma is_dir_node_start w p : is_dir_node w (start w p) = true.
Proof.
  apply bool_decide_eq_true. exists (cwd w). split; [set_solver|].
  unfold start. destruct (is_abs p); [apply prefix_nil|done].
Qed.

Lemma walk_app w cs cs2 : ∀ cur m,
  walk w cur cs = IsDir m → walk w cur (cs ++ cs2) = walk w m cs2.
Proof.
  induction cs as [|c cs IH]; intros cur m; simpl.
  { by intros [= ->]. }
  destruct (is_dir_node w (step cur c)); [apply IH|].
  destruct (is_file_node w (step cur c)), cs; done.
Qed.

Lemma walk_is_dir w cs : ∀ cur m,
  is_dir_node w cur = true → walk w cur cs = IsDir m → is_dir_node w m = true.
Proof.
  induction cs as [|c cs IH]; intros cur m Hcur; simpl.
  { by intros [= <-]. }
  destruct (is_dir_node w (step cur c)) eqn:Hd; [by apply IH|].
  destruct (is_file_node w (step cur c)), cs; done.
Qed.

(** A directory stays one when directories are added and files change. *)
Lemma walk_IsDir_mono w w' cs : ∀ cur m,
  cwd w' = cwd w → fs_dirs w ⊆ fs_dirs w' →
  walk w cur cs = IsDir m → walk w' cur cs = IsDir m.
Proof.
  induction cs as [|c cs IH]; intros cur m Hcwd Hsub; simpl; [done|].
  destruct (is_dir_node w (step cur c)) eqn:Hd.
  - rewrite (is_dir_node_mono w w' _ Hcwd Hsub Hd). by apply IH.
  - destruct (is_file_node w (step cur c)), cs; done.
Qed.

(** A free name that became a directory is found as one. *)
Lemma walk_Absent_made w w' cs : ∀ cur n,
  cwd w' = cwd w → fs_dirs w ⊆ fs_dirs w' → is_dir_node w' n = true →
  walk w cur cs = Absent n → walk w' cur cs = IsDir n.
Proof.
  induction cs as [|c cs IH]; intros cur n Hcwd Hsub Hn; simpl; [done|].
  destruct (is_dir_node w (step cur c)) eqn:Hd.
  - rewrite (is_dir_node_mono w w' _ Hcwd Hsub Hd). by apply IH.
  - destruct (is_file_node w (step cur c)), cs; try done.
    intros [= ->]. by rewrite Hn.
Qed.

Lemma walk_IsFile_on w cs : ∀ cur n,
  walk w cur cs = IsFile n → n ∈ nodes_from cur cs.
Proof.
  induction cs as [|c cs IH]; intros cur n; simpl; [done|].
  destruct (is_dir_node w (step cur c)).
  - intros H. right. by eapply IH.
  - destruct (is_file_node w (step cur c)), cs; try done.
    intros [= ->]. by left.
Qed.

Lemma nodes_from_app cur cs cs2 :
  nodes_from cur (cs ++ cs2)
  = nodes_from cur cs ++ nodes_from (node_from cur cs) cs2.
Proof.
  revert cur. induction cs as [|c cs IH]; intros cur; simpl; [done|].
  by rewrite IH.
Qed.

(** *** How a computation changes the world *)

Section Respects.
Context (R : World → World → Prop) `{!Reflexive R} `{!Transitive R}.

Lemma respects_ret {A} (a : A) : respects R (ret a).
Proof. intros w o w' H. injection H as _ <-. reflexivity. Qed.

Lemma respects_raise {A} e : respects R (@raise A e).
Proof. intros w o w' H. injection H as _ <-. reflexivity. Qed.

Lemma respects_out_of_fuel {A} : respects R (@out_of_fuel A).
Proof. intros w o w' H. injection H as _ <-. reflexivity. Qed.

Lemma respects_bind {A B} (m : M A) (k : A → M B) :
  respects R m → (∀ a, respects R (k a)) → respects R (bind m k).
Proof.
  intros Hm Hk w o w' H.
  apply bind_inv in H as [(a & w1 & H1 & H2)|[(e & H1 & _)|[H1 _]]].
  - transitivity w1; [by eapply Hm|by eapply Hk].
  - by eapply Hm.
  - by eapply Hm.
Qed.

Lemma respects_try {A} (m : M A) handles h :
  respects R m → (∀ e, respects R (h e)) → respects R (try_except m handles h).
Proof.
  intros Hm Hh w o w' H. unfold try_except in H.
  destruct (m w) as [[a|e|] w1] eqn:E.
  - inversion H; subst. by eapply Hm.
  - destruct (handles e).
    + transitivity w1; [by eapply Hm|by eapply Hh].
    + inversion H; subst. by eapply Hm.
  - inversion H; subst. by eapply Hm.
Qed.

(** A computation that leaves alone what [R] looks at respects [R]. *)
Lemma respects_preserves {A X} (f : World → X) (m : M A) :
  (∀ w w', f w' = f w → R w w') → preserves f m → respects R m.
Proof. intros Hf Hm w o w' H. apply Hf. by eapply Hm. Qed.
(** A computation that does not change the world. *)
Lemma respects_pure {A} (m : M A) : preserves id m → respects R m.
Proof. intros Hm w o w' H. rewrite (Hm _ _ _ H : w' = w). reflexivity. Qed.

(** [os.makedirs] respects what [os.mkdir] does. *)
Lemma respects_os_makedirs_rec_of depth : ∀ name exist_ok,
  (∀ name, respects R (os_mkdir name)) →
  respects R (os_makedirs_rec depth name exist_ok).
Proof.
  induction depth as [|depth IH]; intros name exist_ok Hmkdir; simpl.
  { by apply respects_raise. }
  destruct (makedirs_split name) as [head tail].
  apply respects_bind; [apply respects_pure; frame|intros b].
  apply respects_bind; [|intros finished].
  { destruct (_ && _); [|by apply respects_ret].
    apply respects_bind; [|intros _; by apply respects_ret].
    apply respects_try; [by apply IH|intros e; by apply respects_ret]. }
  destruct finished; [by apply respects_ret|].
  apply respects_try; [by apply Hmkdir|intros e].
  apply respects_bind; [apply respects_pure; frame|intros isd].
  destruct (_ || _); [by apply respects_raise|by apply respects_ret].
Qed.
End Respects.

#[export] Instance dirs_kept_refl : Reflexive dirs_kept.
Proof. intros w. unfold dirs_kept. set_solver. Qed.

#[export] Instance dirs_kept_trans : Transitive dirs_kept.
Proof. intros w1 w2 w3. unfold dirs_kept. set_solver. Qed.

Lemma os_mkdir_dirs name : respects dirs_kept (os_mkdir name).
Proof.
  intros w o w' H. unfold dirs_kept, os_mkdir in *.
  apply bind_inv in H as [(u & w1 & Hs & H)|[(e & Hs & _)|[Hs _]]].
  2,3: by rewrite (preserves_syscall fs_dirs ltac:(by intros ??) _ _ _ Hs).
  rewrite <- (preserves_syscall fs_dirs ltac:(by intros ??) _ _ _ Hs).
  destruct (negb _); [by injection H as _ <-|].
  unfold bind, lookup_path in H.
  destruct (resolve w1 name); unfold raise_failure, emit in H;
    simplify_eq; simpl; try done.
  apply union_subseteq_r.
Qed.

(** *** [os.mkdir] and [os.makedirs] *)

Lemma os_mkdir_spec name w w' :
  os_mkdir name w = (Ret tt, w') →
  ∃ n, str_truthy name = true
       ∧ resolve w name = Absent n
       ∧ fs_dirs w' = {[n]} ∪ fs_dirs w
       ∧ cwd w' = cwd w.
Proof.
  unfold os_mkdir. intros H.
  apply bind_Ret_inv in H as ([] & w1 & ->%syscall_Ret & H).
  destruct (str_truthy name); [|done]. simpl in H.
  apply bind_Ret_inv in H as (r & w2 & Hr & H).
  unfold lookup_path in Hr. injection Hr as <- <-.
  rewrite (resolve_ext w) in H by done.
  destruct (resolve w name) as [n|n|n| |]; try done.
  unfold bind, emit in H. injection H as <-. by exists n.
Qed.

Lemma os_mkdir_isdir name w w' :
  os_mkdir name w = (Ret tt, w') → isdir_in w' name = true.
Proof.
  intros (n & Hname & Hres & Hdirs & Hcwd)%os_mkdir_spec.
  unfold isdir_in, resolve, start in *. rewrite Hname, Hcwd. simpl.
  erewrite walk_Absent_made; [done|done| | |exact Hres].
  - rewrite Hdirs. apply union_subseteq_r.
  - apply is_dir_node_in. rewrite Hdirs. apply elem_of_union_l. by apply elem_of_singleton.
Qed.

(** No failure from outside is a [FileExistsError]. *)
Lemma fault_not_FileExistsError f : is_FileExistsError (exc_of_fault f) = false.
Proof. by destruct f as [[] msg]. Qed.

Lemma FileExistsError_is_OSError e :
  is_FileExistsError e = true → is_OSError e = true.
Proof.
  unfold is_FileExistsError, is_OSError. intros H%bool_decide_eq_true.
  rewrite H. done.
Qed.

(** [os.mkdir] raises [FileExistsError] only for a name that exists. *)
Lemma os_mkdir_FileExistsError name w e w' :
  os_mkdir name w = (Raise e, w') → is_FileExistsError e = true →
  str_truthy name = true
  ∧ ∃ n, resolve w' name = IsDir n ∨ resolve w' name = IsFile n.
Proof.
  unfold os_mkdir, bind at 1, syscall. intros H He.
  destruct (io_fault w (clock w)) as [f|].
  { injection H as <- <-. by rewrite fault_not_FileExistsError in He. }
  destruct (str_truthy name); simpl in H.
  2: { injection H as <- <-. done. }
  split; [done|].
  unfold bind, lookup_path in H.
  set (w1 := set_clock (S (clock w)) w) in *.
  destruct (resolve w1 name) as [n|n|n| |] eqn:Hres;
    unfold raise_failure in H; simpl in H; simplify_eq; eauto.
Qed.

(** The last step of [os.makedirs]: when it returns, [name] is a
    directory, made by this call or found. *)
Lemma os_mkdir_or_isdir name w w' :
  try_except (os_mkdir name) is_OSError
    (λ e, isdir <- os_path_isdir name ;;
          if negb true || negb isdir then raise e else ret tt) w
  = (Ret tt, w') →
  isdir_in w' name = true.
Proof.
  unfold try_except. intros H.
  destruct (os_mkdir name w) as [[[]|e|] w3] eqn:Hmk.
  - injection H as <-. by eapply os_mkdir_isdir.
  - destruct (is_OSError e); [|done].
    unfold bind, os_path_isdir, ret, raise in H. simpl in H.
    destruct (isdir_in w3 name) eqn:Hisdir; simpl in H; by simplify_eq.
  - done.
Qed.

(** [os.makedirs] itself raises [FileExistsError] only for a name that is
    a regular file. *)
Lemma os_makedirs_rec_FileExistsError depth name w e w' :
  os_makedirs_rec depth name true w = (Raise e, w') →
  is_FileExistsError e = true →
  ∃ n, resolve w' name = IsFile n.
Proof.
  destruct depth as [|depth]; simpl.
  { intros [= <- <-]. done. }
  destruct (makedirs_split name) as [head tail]. intros H He.
  apply bind_inv in H as [(b & w1 & _ & H)|[(e0 & H & _)|[H _]]]; [|done..].
  apply bind_inv in H as [(fin & w2 & _ & H)|[(e0 & H & [= ->])|[H ?]]];
    [| |done].
  - destruct fin; [done|].
    unfold try_except in H.
    destruct (os_mkdir name w2) as [[[]|e0|] w3] eqn:Hmk; [done| |done].
    assert (e0 = e ∧ w3 = w' ∧ isdir_in w3 name = false) as (-> & -> & Hnot).
    { destruct (is_OSError e0) eqn:Hos.
      - unfold bind, os_path_isdir, ret, raise in H. simpl in H.
        destruct (isdir_in w3 name); simpl in H; by simplify_eq.
      - injection H as -> ->.
        by rewrite (FileExistsError_is_OSError _ He) in Hos. }
    destruct (os_mkdir_FileExistsError _ _ _ _ Hmk He) as (Hname & n & [Hn|Hn]).
    + unfold isdir_in in Hnot. by rewrite Hname, Hn in Hnot.
    + eauto.
  - destruct (_ && _); [|done].
    apply bind_inv in H as [(u & w3 & _ & H)|[(e1 & H & [= ->])|[H ?]]];
      [done| |done].
    unfold try_except in H.
    destruct (os_makedirs_rec depth head true w1) as [[[]|e2|] w3]; [done| |done].
    destruct (is_FileExistsError e2) eqn:He2; [by unfold ret in H|].
    injection H as -> ->. congruence.
Qed.

(** [os.makedirs] creates directories and nothing else. *)
Lemma os_makedirs_rec_grows depth name exist_ok w o w' :
  os_makedirs_rec depth name exist_ok w = (o, w') →
  cwd w' = cwd w ∧ fs_files w' = fs_files w ∧ fs_dirs w ⊆ fs_dirs w'.
Proof.
  intros H. split_and!.
  - by eapply (preserves_os_makedirs_rec cwd); [intros ??..|].
  - by eapply (preserves_os_makedirs_rec fs_files); [intros ??..|].
  - eapply (respects_os_makedirs_rec_of dirs_kept); [apply os_mkdir_dirs|exact H].
Qed.

(** When no name on the way is a regular file, a call of [os.makedirs]
    that returns leaves a directory behind. *)
Lemma no_file_on_spec w p :
  no_file_on w p = true ↔ ∀ n, n ∈ path_nodes w p → is_file_node w n = false.
Proof.
  unfold no_file_on. rewrite forallb_forall. split; intros H n Hn.
  - apply negb_true_iff, H. by apply list_elem_of_In.
  - apply negb_true_iff, H. by apply list_elem_of_In.
Qed.

Lemma os_makedirs_rec_isdir depth : ∀ name w w',
  os_makedirs_rec depth name true w = (Ret tt, w') →
  no_file_on w name = true →
  isdir_in w' name = true.
Proof.
  induction depth as [|depth IH]; intros name w w' H Hfiles; simpl in H; [done|].
  rewrite no_file_on_spec in Hfiles.
  destruct (makedirs_split name) as [head tail] eqn:Hsplit.
  apply bind_Ret_inv in H as (b & w1 & Hb & H).
  injection Hb as <- <-.
  apply bind_Ret_inv in H as (finished & w2 & Hfin & H).
  destruct finished; [|by eapply os_mkdir_or_isdir].
  injection H as <-.
  destruct (str_truthy head && str_truthy tail && negb (exists_in w head))
    eqn:Hcond; [|done].
  apply andb_true_iff in Hcond as [[Hhead Htail]%andb_true_iff _].
  apply bind_Ret_inv in Hfin as ([] & w3 & Htry & Hret).
  injection Hret as Hdot <-.
  apply bool_decide_eq_true in Hdot as ->.
  destruct (makedirs_split_comps _ _ _ Hsplit ltac:(done)) as [Hcomps Habs].
  assert (∀ w0, cwd w0 = cwd w → start w0 name = start w head) as Hstart.
  { intros w0 Hcwd. unfold start. by rewrite Habs, Hcwd. }
  assert (str_truthy name = true) as Hname.
  { destruct name; [|done]. by destruct (real_comps head). }
  unfold try_except in Htry.
  destruct (os_makedirs_rec depth head true w) as [[[]|e|] w4] eqn:Hrec;
    [|destruct (is_FileExistsError e) eqn:He|]; try done; injection Htry as <-.
  - (* the head was made: [name] is [head/.] *)
    destruct (os_makedirs_rec_grows _ _ _ _ _ _ Hrec) as (Hcwd & _ & _).
    apply IH in Hrec.
    2: { apply no_file_on_spec. intros n Hn. apply Hfiles. unfold path_nodes in *.
         rewrite Hcomps, nodes_from_app, (Hstart w) by done.
         apply elem_of_app. by left. }
    unfold isdir_in, resolve in *. rewrite Hhead in Hrec. rewrite Hname.
    simpl in *. rewrite Hcomps, (Hstart w4) by done.
    assert (start w head = start w4 head) as Hst.
    { unfold start. by rewrite Hcwd. }
    rewrite Hst.
    destruct (walk w4 (start w4 head) (real_comps head)) as [m| | | |] eqn:Hwalk;
      try done.
    rewrite (walk_app _ _ _ _ _ Hwalk). simpl.
    change (step m (lit ".")) with m.
    by rewrite (walk_is_dir _ _ _ _ (is_dir_node_start w4 head) Hwalk).
  - (* the head is a regular file: excluded *)
    destruct (os_makedirs_rec_grows _ _ _ _ _ _ Hrec) as (Hcwd & Hf & Hd).
    destruct (os_makedirs_rec_FileExistsError _ _ _ _ _ Hrec He) as [n Hn].
    unfold resolve in Hn.
    pose proof (walk_IsFile _ _ _ _ Hn) as Hfile.
    apply walk_IsFile_on in Hn.
    assert (is_file_node w n = false) as Hnot.
    { apply Hfiles. unfold path_nodes.
      rewrite Hcomps, nodes_from_app, (Hstart w) by done.
      apply elem_of_app. left.
      assert (start w head = start w4 head) as -> by (unfold start; by rewrite Hcwd).
      done. }
    unfold is_file_node in *. rewrite Hf in Hfile.
    apply andb_true_iff in Hfile as [Hnd Hsome]. rewrite Hsome in Hnot.
    rewrite andb_true_r in Hnot. apply negb_true_iff in Hnd.
    apply negb_false_iff in Hnot.
    by rewrite (is_dir_node_mono _ _ _ Hcwd Hd Hnot) in Hnd.
Qed.

(** ** A complete run *)

Lemma isdir_in_ext w w' p :
  cwd w' = cwd w → fs_dirs w' = fs_dirs w → fs_files w' = fs_files w →
  isdir_in w' p = isdir_in w p.
Proof. intros Hc Hd Hf. unfold isdir_in. by rewrite (resolve_ext w w'). Qed.

Lemma isdir_in_mono w w' p :
  cwd w' = cwd w → fs_dirs w ⊆ fs_dirs w' →
  isdir_in w p = true → isdir_in w' p = true.
Proof.
  unfold isdir_in, resolve, start. intros Hc Hd H. rewrite Hc.
  destruct (str_truthy p); [|done]. simpl in *.
  destruct (walk w _ _) as [m| | | |] eqn:Hwalk; try done.
  by rewrite (walk_IsDir_mono w w' _ _ _ Hc Hd Hwalk).
Qed.

Lemma no_file_on_ext w w' p :
  cwd w' = cwd w → fs_dirs w' = fs_dirs w → fs_files w' = fs_files w →
  no_file_on w' p = no_file_on w p.
Proof.
  unfold no_file_on, path_nodes, start. intros Hc Hd Hf. rewrite Hc.
  induction (nodes_from _ _) as [|n l IH]; simpl; [done|].
  by rewrite (is_file_node_ext w w'), IH.
Qed.

(** What a run that reaches line 119 has done: it has created directories,
    spawned the command built by lines 50-86 with a copy of the environment,
    read the lines of that child until it reported its return code, and
    forwarded them, in this order. *)
Lemma execute_run_effects self script_path args shell log_file fuel w process w1 :
  execute_run self script_path args shell log_file fuel w = (Ret process, w1) →
  sys_stdout w1 =
    sys_stdout w
    ++ concat ((λ line, strip line ++ newline)
               <$> lines_read (p_child process) 0 (p_reads process))
  ∧ (∃ mk argv,
       returned_list (build_command self script_path args w) = Some argv
       ∧ os_spawn w argv shell (environ w) = Ok (p_child process)
       ∧ trace w1 =
         trace w ++ (EvMkdir <$> mk) ++ [EvSpawn argv shell (environ w)]
         ++ concat (forwarded log_file
                    <$> lines_read (p_child process) 0 (p_reads process)))
  ∧ (∃ c j,
       p_returncode process = Some c
       ∧ ch_poll (p_child process) j = Ok (Some c)
       ∧ ∀ i, (i < j)%nat → ch_poll (p_child process) i = Ok None)
  ∧ (opt_str_truthy log_file = true →
     Forall (λ line, utf8_encode line = Some (utf8 line))
            (lines_read (p_child process) 0 (p_reads process)))
  ∧ fs_files w1 =
    (if opt_str_truthy log_file
        && bool_decide (lines_read (p_child process) 0 (p_reads process) ≠ [])
     then <[path_node w (default [] log_file) :=
              file_bytes w (path_node w (default [] log_file))
              ++ concat (utf8 <$> lines_read (p_child process) 0 (p_reads process))]>
            (fs_files w)
     else fs_files w)
  ∧ cwd w1 = cwd w
  ∧ fs_dirs w ⊆ fs_dirs w1
  ∧ (opt_str_truthy log_file = true →
     no_file_on w (dirname (default [] log_file)) = true →
     isdir_in w1 (dirname (default [] log_file)) = true).
Proof.
  unfold execute_run, spawn_and_drain. intros H.
  apply bind_Ret_inv in H as (cmd & wa & Hcmd & H).
  apply bind_Ret_inv in H as (argv & wb & Hargv & H).
  apply bind_Ret_inv in H as ([] & wc & Hlog & H).
  apply bind_Ret_inv in H as ([] & wd & Hmk & H).
  apply bind_Ret_inv in H as (p0 & we & Hspawn & H).
  assert (wb = wa ∧ heap wa !! cmd = Some (ObjList argv)) as [-> Hheap].
  { unfold list_items in Hargv.
    destruct (heap wa !! cmd) as [[items|]|]; by simplify_eq. }
  assert (∀ X (f : World → X),
            ignores_heap f → ignores_log f → f wc = f w) as Hpre.
  { intros X f Hh Hl.
    rewrite (preserves_logger_log f _ _ Hl _ _ _ Hlog).
    by rewrite (preserves_build_command f _ _ _ Hh _ _ _ Hcmd). }
  assert (∀ X (f : World → X),
            ignores_clock f → ignores_dirs f → ignores_trace f → f wd = f wc)
    as Hmk_pre.
  { intros X f Hc Hd Ht.
    assert (preserves f
              (if opt_str_truthy log_file
               then os_makedirs (dirname (default [] log_file)) true
               else ret tt)) as Hp by frame.
    by eapply Hp. }
  assert (∃ mk, trace wd = trace wc ++ (EvMkdir <$> mk)) as [mk Hmk_trace].
  { destruct (opt_str_truthy log_file).
    - by eapply only_mkdirs_os_makedirs_rec.
    - exists []. injection Hmk as <-. by rewrite app_nil_r. }
  assert (fs_dirs wc ⊆ fs_dirs wd) as Hmk_dirs.
  { destruct (opt_str_truthy log_file); [|by injection Hmk as <-].
    by eapply os_makedirs_rec_grows. }
  assert (p0 = mkPopen (p_child p0) 0 0 None
          ∧ os_spawn w argv shell (environ w) = Ok (p_child p0)
          ∧ we = set_trace (trace wd ++ [EvSpawn argv shell (environ w)]) wd)
    as (Hp0 & Hos & ->).
  { unfold subprocess_Popen in Hspawn.
    apply bind_Ret_inv in Hspawn as (argv' & wf & Hargv' & Hspawn).
    assert (heap wd = heap wa) as Hda.
    { rewrite (Hmk_pre _ heap) by (by intros ??).
      by eapply (preserves_logger_log heap); [intros ??|]. }
    assert (environ wd = environ w) as Henv.
    { rewrite (Hmk_pre _ environ) by (by intros ??). apply Hpre; by intros ??. }
    assert (os_spawn wd = os_spawn w) as Hsp.
    { rewrite (Hmk_pre _ os_spawn) by (by intros ??). apply Hpre; by intros ??. }
    unfold list_items in Hargv'. rewrite Hda, Hheap in Hargv'.
    injection Hargv' as <- <-. rewrite Henv, Hsp in Hspawn.
    destruct (os_spawn w argv shell (environ w)); by simplify_eq. }
  pose proof (drain_returns_code _ _ _ _ _ _ H) as [Hchild _].
  destruct (drain_first_poll _ _ _ _ _ _ H) as (c & j & Hc & _ & Hj & Hbefore).
  { by rewrite Hp0. }
  pose proof H as Hdrain.
  apply drain_effects in H as (_ & Hout & Htrace & Hcwd & Henc & Hfiles).
  assert (path_node (set_trace (trace wd ++ [EvSpawn argv shell (environ w)]) wd)
            (default [] log_file) = path_node w (default [] log_file)) as Hnode.
  { unfold path_node, start. simpl.
    rewrite (Hmk_pre _ cwd), (Hpre _ cwd) by (by intros ??). done. }
  rewrite Hnode in Hfiles. unfold file_bytes in *.
  rewrite Hp0 in Hout, Htrace, Henc, Hfiles, Hbefore, Hj.
  simpl in Hout, Htrace, Hcwd, Henc, Hfiles, Hbefore, Hj.
  rewrite Nat.sub_0_r, <- Hchild in Hout, Htrace, Henc, Hfiles.
  rewrite <- Hchild in Hos, Hj, Hbefore.
  rewrite (Hmk_pre _ sys_stdout), (Hpre _ sys_stdout) in Hout by (by intros ??).
  rewrite (Hmk_pre _ fs_files), (Hpre _ fs_files) in Hfiles by (by intros ??).
  rewrite (Hmk_pre _ cwd), (Hpre _ cwd) in Hcwd by (by intros ??).
  rewrite Hmk_trace, (Hpre _ trace) in Htrace by (by intros ??).
  rewrite (Hpre _ fs_dirs) in Hmk_dirs by (by intros ??).
  assert (fs_dirs w1 = fs_dirs wd) as Hdirs.
  { by apply (preserves_drain fs_dirs _ _ _
                ltac:(by intros ??) ltac:(by intros ??)
                ltac:(by intros ??) ltac:(by intros ??) _ _ _ Hdrain). }
  split; [done|]. split.
  { exists mk, argv. split; [|split; [done|]].
    - unfold returned_list. by rewrite Hcmd, Hheap.
    - by rewrite Htrace, <- !app_assoc. }
  split.
  { exists c, j. split_and!; [done|done|]. intros i Hi. apply Hbefore. lia. }
  split; [done|]. split; [done|]. split; [done|].
  split; [by rewrite Hdirs|].
  intros Hlf Hnofile. rewrite Hlf in Hmk.
  apply (isdir_in_mono wd).
  { rewrite Hcwd. rewrite (Hmk_pre _ cwd), (Hpre _ cwd) by (by intros ??). done. }
  { by rewrite Hdirs. }
  eapply os_makedirs_rec_isdir; [exact Hmk|].
  rewrite (no_file_on_ext w); [done|..]; apply Hpre; by intros ??.
Qed.

(** A run that reaches line 119 returns the translation of the return code,
    and the completion only writes to the logger. *)
Lemma execute_of_run self script_path script_type args shell log_file fuel w process w1 c :
  execute_run self script_path args shell log_file fuel w = (Ret process, w1) →
  p_returncode process = Some c →
  ∃ w', execute self script_path script_type args shell log_file fuel w
        = (Ret (result_of_return_code c), w')
        ∧ sys_stdout w' = sys_stdout w1
        ∧ trace w' = trace w1
        ∧ fs_files w' = fs_files w1
        ∧ fs_dirs w' = fs_dirs w1
        ∧ cwd w' = cwd w1.
Proof.
  intros Hrun Hc.
  destruct (execute_complete_spec process c w1 Hc) as (w' & Hdone & _).
  exists w'. split.
  { unfold execute, try_except, execute_body.
    by rewrite (bind_Ret _ _ _ _ _ Hrun), Hdone. }
  repeat split.
  - by eapply (preserves_execute_complete sys_stdout); [intros ??|].
  - by eapply (preserves_execute_complete trace); [intros ??|].
  - by eapply (preserves_execute_complete fs_files); [intros ??|].
  - by eapply (preserves_execute_complete fs_dirs); [intros ??|].
  - by eapply (preserves_execute_complete cwd); [intros ??|].
Qed.

(** C5, as the code has it: in a run that reaches [process.wait()], the
    child is the process spawned for the command built by lines 50-86, the
    code [c] is the first return code it reports, and the result is [c] with
    the message "Execution failed, return code: c" if [c] is not zero, and
    [0] without a message if it is. *)
Theorem exit_code_translation
    self script_path script_type args shell log_file fuel w process w1 :
  execute_run self script_path args shell log_file fuel w = (Ret process, w1) →
  ∃ argv child c j r w',
    returned_list (build_command self script_path args w) = Some argv
    ∧ os_spawn w argv shell (environ w) = Ok child
    ∧ ch_poll child j = Ok (Some c)
    ∧ (∀ i, (i < j)%nat → ch_poll child i = Ok None)
    ∧ execute self script_path script_type args shell log_file fuel w = (Ret r, w')
    ∧ returncode r = c
    ∧ (c ≠ 0 ∧ error r = Some (lit "Execution failed, return code: " ++ str_of_int c)
       ∨ c = 0 ∧ error r = None).
Proof.
  intros Hrun.
  destruct (execute_run_effects _ _ _ _ _ _ _ _ _ Hrun)
    as (_ & (mk & argv & Hargv & Hos & _) & (c & j & Hc & Hj & Hbefore) & _).
  destruct (execute_complete_spec process c w1 Hc) as (w' & Hdone & _).
  exists argv, (p_child process), c, j, (result_of_return_code c), w'.
  split_and!; try done.
  - unfold execute, try_except, execute_body.
    by rewrite (bind_Ret _ _ _ _ _ Hrun), Hdone.
  - unfold result_of_return_code. simpl.
    case_bool_decide; [left|right]; split; done.
Qed.



(** ** Scenarios of the specification *)

(** The examples of [os.path.dirname] and [str.strip] used below. *)
Example dirname_nested : dirname (lit "/tmp/logs/run.log") = lit "/tmp/logs".
Proof. reflexivity. Qed.

Example dirname_of_bare_name : dirname (lit "run.log") = [].
Proof. reflexivity. Qed.

Example dirname_root : dirname (lit "/run.log") = lit "/".
Proof. reflexivity. Qed.

Example strip_both_ends : strip (lit "  a b  ") = lit "a b".
Proof. reflexivity. Qed.

Example str_of_int_examples :
  str_of_int 0 = lit "0" ∧ str_of_int 7 = lit "7" ∧ str_of_int (-9) = lit "-9".
Proof. by vm_compute. Qed.

(** How paths resolve in the current directory [/work]. *)
Example path_node_examples :
  path_node docker_world (lit "logs/run.log") = [lit "work"; lit "logs"; lit "run.log"]
  ∧ path_node docker_world (lit "./logs//run.log")
    = [lit "work"; lit "logs"; lit "run.log"]
  ∧ path_node docker_world (lit "logs/../run.log") = [lit "work"; lit "run.log"]
  ∧ path_node docker_world (lit "/tmp/run.log") = [lit "tmp"; lit "run.log"]
  ∧ path_node docker_world (lit "logs/.") = [lit "work"; lit "logs"].
Proof. by vm_compute. Qed.

(** The same directory under several names, a regular file behind a
    separator, and a name that leads through a missing directory. *)
Example resolve_examples :
  isdir_in used_world (lit "logs") = true
  ∧ isdir_in used_world (lit "./logs/.") = true
  ∧ isdir_in used_world (lit "logs/..") = true
  ∧ isdir_in used_world (lit "/") = true
  ∧ isdir_in used_world (lit "") = false
  ∧ exists_in used_world (lit "logs//run.log") = true
  ∧ exists_in used_world (lit "logs/run.log/") = false
  ∧ exists_in used_world (lit "nowhere/..") = false
  ∧ resolve used_world (lit "logs/run.log/x") = NotDir
  ∧ resolve used_world (lit "nowhere/x") = NoEnt.
Proof. by vm_compute. Qed.

(** [os.mkdir] and [open] under names that already lead somewhere. *)
Example os_mkdir_examples :
  (os_mkdir (lit "logs/..") used_world).1
  = Raise (mkExc "FileExistsError" (lit "[Errno 17] File exists: 'logs/..'"))
  ∧ (os_mkdir (lit "./logs") used_world).1
    = Raise (mkExc "FileExistsError" (lit "[Errno 17] File exists: './logs'"))
  ∧ (os_mkdir (lit "notes.txt/") used_world).1
    = Raise (mkExc "FileExistsError" (lit "[Errno 17] File exists: 'notes.txt/'"))
  ∧ (os_mkdir (lit "notes.txt/x") used_world).1
    = Raise (mkExc "NotADirectoryError" (lit "[Errno 20] Not a directory: 'notes.txt/x'"))
  ∧ (os_mkdir (lit "nowhere/x") used_world).1
    = Raise (mkExc "FileNotFoundError"
               (lit "[Errno 2] No such file or directory: 'nowhere/x'"))
  ∧ fs_dirs (os_mkdir (lit "logs/../tmp/") used_world).2
    = {[ [lit "work"; lit "tmp"] ]} ∪ fs_dirs used_world.
Proof. by vm_compute. Qed.

Example open_append_examples :
  (open_append (lit "logs/.") used_world).1
  = Raise (mkExc "IsADirectoryError" (lit "[Errno 21] Is a directory: 'logs/.'"))
  ∧ (open_append (lit "notes.txt/") used_world).1
    = Raise (mkExc "IsADirectoryError" (lit "[Errno 21] Is a directory: 'notes.txt/'"))
  ∧ (open_append (lit "new/") used_world).1
    = Raise (mkExc "IsADirectoryError" (lit "[Errno 21] Is a directory: 'new/'"))
  ∧ (open_append (lit "logs//run.log") used_world).1
    = Ret (mkFileHandle (lit "logs//run.log") [lit "work"; lit "logs"; lit "run.log"])
  ∧ (open_append (lit "./logs/run.log") used_world).1
    = Ret (mkFileHandle (lit "./logs/run.log") [lit "work"; lit "logs"; lit "run.log"])
  ∧ (open_append (lit "logs/../run.log") used_world).1
    = Ret (mkFileHandle (lit "logs/../run.log") [lit "work"; lit "run.log"]).
Proof. by vm_compute. Qed.

(** The bytes of a line, and a line that has none. *)
Example utf8_examples :
  utf8_encode (lit "ab" ++ newline) = Some [97; 98; 10]%N
  ∧ utf8_encode [233; 8364; 128512]%N
    = Some [195; 169; 226; 130; 172; 240; 159; 152; 128]%N
  ∧ utf8_encode [97; 56448]%N = None
  ∧ surrogates_not_allowed [97; 56448]%N
    = lit "'utf-8' codec can't encode character '\udc80' in position 1: surrogates not allowed"
  ∧ surrogates_not_allowed [55296; 55297; 55298]%N
    = lit "'utf-8' codec can't encode characters in position 0-2: surrogates not allowed".
Proof. by vm_compute. Qed.

(** [job.py] in a container with arguments [--x 1]: the command is
    [python job.py --x 1]; the child prints a line and exits 0. *)
Example scenario_container_success :
  let r := execute 0 (lit "job.py") (lit "demo") (Some 1%nat) false
             (Some (lit "logs/run.log")) 3 docker_world in
  r.1 = Ret {| returncode := 0; error := None |}
  ∧ trace r.2 =
    [EvMkdir (lit "logs");
     EvSpawn [lit "python"; lit "job.py"; lit "--x"; lit "1"] false
             {[ lit "IN_DOCKER_ENV" := lit "1" ]};
     EvPrint (lit "hello");
     EvOpen (lit "logs/run.log");
     EvWrite (lit "logs/run.log") (lit "  hello" ++ newline);
     EvClose (lit "logs/run.log")]
  ∧ sys_stdout r.2 = lit "hello" ++ newline
  ∧ fs_dirs r.2 = {[ [lit "work"; lit "logs"] ]}
  ∧ fs_files r.2 !! [lit "work"; lit "logs"; lit "run.log"]
    = Some (utf8 (lit "  hello" ++ newline)).
Proof. by vm_compute. Qed.

(** The log file named through [..] is the file beside the directory. *)
Example scenario_log_file_beside :
  let r := execute 0 (lit "job.py") (lit "demo") None false
             (Some (lit "logs/../run.log")) 3 docker_world in
  r.1 = Ret {| returncode := 0; error := None |}
  ∧ fs_dirs r.2 = {[ [lit "work"; lit "logs"] ]}
  ∧ fs_files r.2 = {[ [lit "work"; lit "run.log"] := utf8 (lit "  hello" ++ newline) ]}.
Proof. by vm_compute. Qed.

(** A log file that is there is appended to, under any of its names. *)
Example scenario_log_file_appended :
  let r := execute 0 (lit "job.py") (lit "demo") None false
             (Some (lit "./logs//run.log")) 3 used_world in
  r.1 = Ret {| returncode := 0; error := None |}
  ∧ fs_files r.2 !! [lit "work"; lit "logs"; lit "run.log"]
    = Some (utf8 (lit "earlier" ++ newline) ++ utf8 (lit "  hello" ++ newline))
  ∧ fs_files r.2 !! [lit "work"; lit "notes.txt"] = Some (utf8 (lit "keep"))
  ∧ dom (fs_files r.2) = dom (fs_files used_world).
Proof. by vm_compute. Qed.

(** A child that exits 7. *)
Example scenario_nonzero_exit :
  (execute 0 (lit "run.sh") (lit "demo") None false None 3 conda_world).1
  = Ret {| returncode := 7;
           error := Some (lit "Execution failed, return code: 7") |}.
Proof. by vm_compute. Qed.

(** A command that cannot be spawned. *)
Example scenario_spawn_fails :
  (execute 0 (lit "nowhere") (lit "demo") None false None 3 missing_world).1
  = Ret {| returncode := -1;
           error := Some (lit "Error occurred while executing demo script: [Errno 2] No such file or directory: 'nowhere'") |}.
Proof. by vm_compute. Qed.

(** A fault while draining: the pipe breaks at the first [readline()]. *)
Example scenario_read_fails :
  (execute 0 (lit "job.py") (lit "demo") None false None 3
     (sample_world {[ lit "IN_DOCKER_ENV" := lit "1" ]}
        {[ 0%nat := ObjScriptExecutor true (lit "docker-env") ]}
        (Ok (mkChild (λ _, Err (mkExc "OSError" (lit "pipe closed")))
                     (λ _, Ok None) (Ok 0))))).1
  = Ret {| returncode := -1;
           error := Some (lit "Error occurred while executing demo script: pipe closed") |}.
Proof. by vm_compute. Qed.

(** A fault before the spawn: the first system call, [os.mkdir], is denied. *)
Example scenario_mkdir_denied :
  let w := mkWorld {[ lit "IN_DOCKER_ENV" := lit "1" ]} [lit "work"] ∅ ∅ [] []
             {[ 0%nat := ObjScriptExecutor true (lit "docker-env") ]} [] 0
             (λ _, Some (mkFault PermissionError (lit "denied")))
             sample_failure_str
             (λ _ _ _, Ok (sample_child [] 0)) in
  let r := execute 0 (lit "job.py") (lit "demo") None false
             (Some (lit "logs/run.log")) 3 w in
  r.1 = Ret {| returncode := -1;
               error := Some (lit "Error occurred while executing demo script: denied") |}
  ∧ trace r.2 = [].
Proof. by vm_compute. Qed.

(** A log file whose name is a directory: the child runs and exits 0, and
    the first line cannot be logged. *)
Example scenario_log_file_is_directory :
  let r := execute 0 (lit "job.py") (lit "demo") None false
             (Some (lit "logs/.")) 3 docker_world in
  r.1 = Ret {| returncode := -1;
               error := Some (lit "Error occurred while executing demo script: [Errno 21] Is a directory: 'logs/.'") |}
  ∧ fs_files r.2 = ∅.
Proof. by vm_compute. Qed.

(** One pass through the loop is not enough for a child that prints a line. *)
Example scenario_too_little_fuel :
  (execute 0 (lit "job.py") (lit "demo") None false None 1 docker_world).1
  = OutOfFuel.
Proof. by vm_compute. Qed.

(** ** Instances

    Each theorem with hypotheses, applied in a sample world. *)

(** C3 in [conda_world], for [run.sh] with arguments [--x 1]. *)
Lemma command_outside_container_witness :
  heap conda_world !! 0%nat = Some (ObjScriptExecutor false (lit "lpm"))
  ∧ args_ok conda_world (Some 1%nat)
  ∧ returned_list (build_command 0 (lit "run.sh") (Some 1%nat) conda_world)
    = Some [lit "conda"; lit "run"; lit "-n"; lit "lpm"; lit "bash"; lit "-x";
            lit "run.sh"; lit "--x"; lit "1"].
Proof.
  assert (heap conda_world !! 0%nat = Some (ObjScriptExecutor false (lit "lpm")))
    as H1 by reflexivity.
  assert (args_ok conda_world (Some 1%nat)) as H2.
  { exists [lit "--x"; lit "1"]. reflexivity. }
  split; [exact H1|]. split; [exact H2|].
  exact (proj1 (command_outside_container conda_world 0 (lit "lpm") (lit "run.sh")
                  (Some 1%nat) H1 H2)).
Defined.

(** C4 in [docker_world], for [job.py] with arguments [--x 1]. *)
Lemma command_in_container_witness :
  heap docker_world !! 0%nat = Some (ObjScriptExecutor true (lit "docker-env"))
  ∧ args_ok docker_world (Some 1%nat)
  ∧ returned_list (build_command 0 (lit "job.py") (Some 1%nat) docker_world)
    = Some [lit "python"; lit "job.py"; lit "--x"; lit "1"].
Proof.
  assert (heap docker_world !! 0%nat
          = Some (ObjScriptExecutor true (lit "docker-env"))) as H1 by reflexivity.
  assert (args_ok docker_world (Some 1%nat)) as H2.
  { exists [lit "--x"; lit "1"]. reflexivity. }
  split; [exact H1|]. split; [exact H2|].
  exact (command_in_container docker_world 0 (lit "docker-env") (lit "job.py")
           (Some 1%nat) H1 H2).
Defined.

(** C5 in [conda_world], where the child exits 7. *)
Lemma exit_code_translation_witness :
  ∃ process w1,
    execute_run 0 (lit "run.sh") None false None 3 conda_world = (Ret process, w1)
    ∧ ∃ argv child c j r w',
        returned_list (build_command 0 (lit "run.sh") None conda_world) = Some argv
        ∧ os_spawn conda_world argv false (environ conda_world) = Ok child
        ∧ ch_poll child j = Ok (Some c)
        ∧ (∀ i, (i < j)%nat → ch_poll child i = Ok None)
        ∧ execute 0 (lit "run.sh") (lit "demo") None false None 3 conda_world
          = (Ret r, w')
        ∧ returncode r = c
        ∧ (c ≠ 0 ∧ error r = Some (lit "Execution failed, return code: " ++ str_of_int c)
           ∨ c = 0 ∧ error r = None).
Proof.
  assert (∃ process w1,
            execute_run 0 (lit "run.sh") None false None 3 conda_world
            = (Ret process, w1)) as (process & w1 & H).
  { eexists _, _. vm_compute. reflexivity. }
  exists process, w1. split; [exact H|].
  exact (exit_code_translation 0 (lit "run.sh") (lit "demo") None false None 3
           conda_world process w1 H).
Defined.


(** C9 in [docker_world], for the log file [run.log]. *)
Lemma bare_log_file_never_spawns_witness :
  lit "run.log" ≠ []
  ∧ (sep ∉ lit "run.log")
  ∧ ∃ msg w',
      execute 0 (lit "job.py") (lit "demo") None false (Some (lit "run.log")) 3
        docker_world
      = (Ret {| returncode := -1; error := Some msg |}, w')
      ∧ trace w' = trace docker_world
      ∧ dirname (lit "run.log") = []
      ∧ raises (os_makedirs (dirname (lit "run.log")) true w') = true.
Proof.
  assert (lit "run.log" ≠ []) as H1 by (vm_compute; discriminate).
  assert (sep ∉ lit "run.log") as H2.
  { apply (bool_decide_unpack _). vm_compute. exact I. }
  split; [exact H1|]. split; [exact H2|].
  exact (bare_log_file_never_spawns 0 (lit "job.py") (lit "demo") None false
           (lit "run.log") 3 docker_world H1 H2).
Defined.

(** C10 in [docker_world]. *)
Lemma execute_leaves_context_and_args_witness :
  heap docker_world !! 0%nat = Some (ObjScriptExecutor true (lit "docker-env"))
  ∧ args_ok docker_world (Some 1%nat)
  ∧ ∃ o w',
      execute 0 (lit "job.py") (lit "demo") (Some 1%nat) false None 3 docker_world
      = (o, w')
      ∧ heap docker_world ⊆ heap w'
      ∧ heap w' !! 0%nat = Some (ObjScriptExecutor true (lit "docker-env"))
      ∧ args_ok w' (Some 1%nat)
      ∧ args_items w' (Some 1%nat) = args_items docker_world (Some 1%nat)
      ∧ returned_list (build_command 0 (lit "job.py") (Some 1%nat) w')
        = returned_list (build_command 0 (lit "job.py") (Some 1%nat) docker_world)
      ∧ returned_list (build_command 0 (lit "job.py") (Some 1%nat) docker_world)
        = Some (spec_command true (lit "docker-env") (lit "job.py")
                  (args_items docker_world (Some 1%nat))).
Proof.
  assert (heap docker_world !! 0%nat
          = Some (ObjScriptExecutor true (lit "docker-env"))) as H1 by reflexivity.
  assert (args_ok docker_world (Some 1%nat)) as H2.
  { exists [lit "--x"; lit "1"]. reflexivity. }
  assert (∃ o w',
            execute 0 (lit "job.py") (lit "demo") (Some 1%nat) false None 3
              docker_world = (o, w')) as (o & w' & H3).
  { eexists _, _. vm_compute. reflexivity. }
  split; [exact H1|]. split; [exact H2|].
  exists o, w'. split; [exact H3|].
  exact (execute_leaves_context_and_args docker_world 0 true (lit "docker-env")
           (lit "job.py") (lit "demo") (Some 1%nat) false None 3 o w' H1 H2 H3).
Defined.



(** ** Where the specification and the code part *)

(** C5, as stated, fails: the child exits 0, and [execute] returns -1 with
    a message, because the log file [logs/] cannot be opened for the line
    the child printed. *)
Lemma child_exit_code_lost_when_a_step_raises :
  let child := sample_child [lit "  hello" ++ newline] 0 in
  let r := execute 0 (lit "job.py") (lit "demo") None false
             (Some (lit "logs/")) 3 docker_world in
  os_spawn docker_world [lit "python"; lit "job.py"] false (environ docker_world)
  = Ok child
  ∧ ch_poll child 0 = Ok (Some 0)
  ∧ ch_wait child = Ok 0
  ∧ trace r.2 =
    [EvMkdir (lit "logs");
     EvSpawn [lit "python"; lit "job.py"] false (environ docker_world);
     EvPrint (lit "hello")]
  ∧ r.1 = Ret {| returncode := -1;
                 error := Some (lit "Error occurred while executing demo script: [Errno 21] Is a directory: 'logs/'") |}
  ∧ r.1 ≠ Ret {| returncode := 0; error := None |}.
Proof. vm_compute. split_and!; try done. Qed.



(** * Further properties *)

(** ** Relations between the world before and after *)

#[export] Instance files_appended_refl path : Reflexive (files_appended path).
Proof.
  intros w. split_and!; [done..|]. intros old ->. exists []. by rewrite app_nil_r.
Qed.

#[export] Instance files_appended_trans path : Transitive (files_appended path).
Proof.
  intros w1 w2 w3 (C1 & H1 & H1') (C2 & H2 & H2').
  assert (path_node w2 path = path_node w1 path) as Hnode.
  { unfold path_node, start. by rewrite C1. }
  rewrite Hnode in *. split_and!.
  - congruence.
  - intros n Hn. rewrite H2, H1; done.
  - intros old Hold. destruct (H1' _ Hold) as [more1 Hm1].
    destruct (H2' _ Hm1) as [more2 Hm2].
    exists (more1 ++ more2). by rewrite app_assoc.
Qed.

Lemma open_files_app evs1 evs2 :
  open_files (evs1 ++ evs2) = open_files evs1 + open_files evs2.
Proof.
  induction evs1 as [|ev evs1 IH]; simpl; [done|].
  destruct ev; rewrite ?IH; lia.
Qed.

#[export] Instance forwarding_refl log_file : Reflexive (forwarding log_file).
Proof. intros w. exists []. by rewrite app_nil_r. Qed.

#[export] Instance forwarding_trans log_file : Transitive (forwarding log_file).
Proof.
  intros w1 w2 w3 (e1 & H1 & P1 & Q1) (e2 & H2 & P2 & Q2).
  exists (e1 ++ e2). split; [by rewrite H2, H1, app_assoc|].
  rewrite forallb_app, P1, P2, open_files_app. split; [done|lia].
Qed.

#[export] Instance fs_unchanged_refl : Reflexive fs_unchanged.
Proof. by intros w. Qed.

#[export] Instance fs_unchanged_trans : Transitive fs_unchanged.
Proof. intros w1 w2 w3 [H1 H1'] [H2 H2']. split; congruence. Qed.

(** What respects a relation in every part of [execute], once the calls
    with an effect of their own do. *)
Section Whole.
Context (R : World → World → Prop) `{!Reflexive R} `{!Transitive R}.
Context (log_file : option pystr).
Hypothesis R_heap : ∀ h w, R w (set_heap h w).
Hypothesis R_log : ∀ l w, R w (set_log_records l w).
Hypothesis R_mkdir :
  opt_str_truthy log_file = true → ∀ name, respects R (os_mkdir name).
Hypothesis R_spawn : ∀ cmd shell, respects R (subprocess_Popen cmd shell).
Hypothesis R_output : ∀ output, respects R (handle_output output log_file).

Lemma respects_new_object o : respects R (new_object o).
Proof. intros w r w' H. unfold new_object in H. simplify_eq. apply R_heap. Qed.

Lemma respects_list_extend l other : respects R (list_extend l other).
Proof.
  unfold list_extend.
  apply respects_bind; [done|apply respects_pure; frame|intros more].
  apply respects_bind; [done|apply respects_pure; frame|intros mine].
  intros w r w' H. simplify_eq. apply R_heap.
Qed.

Lemma respects_build_command self script_path args :
  respects R (build_command self script_path args).
Proof.
  unfold build_command.
  apply respects_bind; [done|apply respects_pure; frame|intros d].
  apply respects_bind; [done| |intros cmd].
  { destruct d, (endswith script_path (lit ".py")),
      (endswith script_path (lit ".sh"));
      try apply respects_new_object;
      (apply respects_bind;
       [done|apply respects_pure; frame|intros ?; apply respects_new_object]). }
  apply respects_bind; [done|apply respects_pure; frame|intros b].
  apply respects_bind; [done| |intros _; by apply respects_ret].
  destruct b; [apply respects_list_extend|by apply respects_ret].
Qed.

Lemma respects_logger_log lvl msg : respects R (logger_log lvl msg).
Proof. intros w r w' H. unfold logger_log in H. simplify_eq. apply R_log. Qed.

Lemma respects_os_makedirs_rec depth name exist_ok :
  opt_str_truthy log_file = true →
  respects R (os_makedirs_rec depth name exist_ok).
Proof. intros Hlog. apply respects_os_makedirs_rec_of; auto. Qed.

Lemma respects_drain fuel : ∀ process, respects R (drain fuel process log_file).
Proof.
  induction fuel as [|fuel IH]; intros process; simpl.
  { by apply respects_out_of_fuel. }
  apply respects_bind; [done|apply respects_pure; frame|intros [output p1]].
  apply respects_bind; [done| |intros [stop p2]].
  { destruct (negb (str_truthy output)); [|by apply respects_ret].
    apply respects_bind; [done|apply respects_pure; frame|].
    intros [rc p2]. by apply respects_ret. }
  destruct stop; [by apply respects_ret|].
  apply respects_bind; [done|apply R_output|intros _; apply IH].
Qed.

Lemma respects_spawn_and_drain cmd shell fuel :
  respects R (spawn_and_drain cmd shell log_file fuel).
Proof.
  unfold spawn_and_drain.
  apply respects_bind; [done|apply respects_pure; frame|intros argv].
  apply respects_bind; [done|apply respects_logger_log|intros _].
  apply respects_bind; [done| |intros _].
  { pose proof respects_os_makedirs_rec as Hmk.
    destruct (opt_str_truthy log_file); [|by apply respects_ret].
    by apply Hmk. }
  apply respects_bind; [done|apply R_spawn|intros p; apply respects_drain].
Qed.

Lemma respects_execute self script_path script_type args shell fuel :
  respects R (execute self script_path script_type args shell log_file fuel).
Proof.
  unfold execute, execute_body, execute_run.
  apply respects_try; [done| |intros e].
  - apply respects_bind; [done| |intros p].
    + apply respects_bind; [done|apply respects_build_command|intros cmd].
      apply respects_spawn_and_drain.
    + unfold execute_complete.
      apply respects_bind; [done|apply respects_pure; frame|intros [c p']].
      apply respects_bind; [done| |intros _; by apply respects_ret].
      destruct (bool_decide _); apply respects_logger_log.
  - unfold execute_handler.
    apply respects_bind; [done|apply respects_logger_log|].
    intros _. by apply respects_ret.
Qed.
End Whole.

(** ** The file system *)

Lemma files_appended_same path w w' :
  cwd_and_files w' = cwd_and_files w → files_appended path w w'.
Proof.
  unfold cwd_and_files. intros [= Hc Hf].
  unfold files_appended. rewrite Hc, Hf. split_and!; [done..|].
  intros old ->. exists []. by rewrite app_nil_r.
Qed.

Lemma open_append_handle path w h w' :
  open_append path w = (Ret h, w') → fh_name h = path.
Proof. by intros (-> & _)%open_append_spec. Qed.

(** An [open] that raises has done nothing. *)
Lemma open_append_raise path w e w' :
  open_append path w = (Raise e, w') → w' = set_clock (S (clock w)) w.
Proof.
  unfold open_append, bind at 1, syscall.
  destruct (io_fault w (clock w)); [by intros [= _ <-]|].
  destruct (negb _); [by intros [= _ <-]|].
  unfold bind, lookup_path.
  destruct (resolve _ path), (ends_with_sep path);
    unfold raise_failure, emit, ret; intros H; by simplify_eq.
Qed.

Lemma halts_open_append path : halts (open_append path).
Proof. unfold open_append. halting. by intros w. Qed.

Lemma respects_open_append path : respects (files_appended path) (open_append path).
Proof.
  intros w o w' H. destruct o as [h|e|].
  - apply open_append_spec in H as (_ & _ & _ & Hcwd & Hlook & Hins).
    split_and!; [done| |].
    + intros n Hn. specialize (Hins []).
      apply (f_equal (λ m, m !! n)) in Hins.
      by rewrite !lookup_insert_ne in Hins.
    + intros old Hold. exists []. unfold file_bytes in Hlook.
      by rewrite Hlook, Hold, app_nil_r.
  - apply open_append_raise in H as ->. by apply files_appended_same.
  - pose proof (halts_open_append path w) as Hh. by rewrite H in Hh.
Qed.

(** A write through a handle on the log file appends to it. *)
Lemma file_write_appended path data w o w' :
  file_write (mkFileHandle path (path_node w path)) data w = (o, w') →
  files_appended path w w'.
Proof.
  unfold file_write. destruct (utf8_encode data) as [b|].
  2: { intros [= _ <-]. reflexivity. }
  intros H.
  apply bind_inv in H as [(u & w1 & ->%syscall_Ret & H)|[(e & Hs & _)|[Hs _]]].
  - unfold bind, emit in H. injection H as _ <-.
    unfold files_appended. simpl. split_and!; [done| |].
    + intros n Hn. by rewrite lookup_insert_ne.
    + intros old Hold. rewrite lookup_insert_eq, Hold. eauto.
  - apply files_appended_same. unfold syscall in Hs.
    destruct (io_fault w (clock w)); by simplify_eq.
  - apply files_appended_same. unfold syscall in Hs.
    destruct (io_fault w (clock w)); by simplify_eq.
Qed.

Lemma respects_with_open_append_write path data :
  respects (files_appended path) (with_open_append_write path data).
Proof.
  unfold with_open_append_write. intros w o w' H.
  apply bind_inv in H as [(h & w1 & Hopen & H)|[(e & Hopen & _)|[Hopen _]]];
    [|by eapply respects_open_append..].
  transitivity w1; [by eapply respects_open_append|].
  apply open_append_spec in Hopen as (-> & _ & _ & Hcwd & _).
  assert (path_node w path = path_node w1 path) as Hnode.
  { unfold path_node, start. by rewrite Hcwd. }
  rewrite Hnode in H.
  set (h := mkFileHandle path (path_node w1 path)) in *.
  assert (∀ w2 o2 w3, file_close h w2 = (o2, w3) →
                      cwd_and_files w3 = cwd_and_files w2) as Hclose.
  { intros w2 o2 w3 Hc.
    by eapply (preserves_file_close cwd_and_files); [intros ??|]. }
  destruct (file_write h data w1) as [[[]|e|] w2] eqn:Hwrite.
  - transitivity w2; [by eapply file_write_appended|].
    apply files_appended_same. by eapply Hclose.
  - transitivity w2; [by eapply file_write_appended|].
    apply files_appended_same.
    apply bind_inv in H as [(a & w3 & Hc & H)|[(e' & Hc & _)|[Hc _]]].
    + injection H as _ <-. by eapply Hclose.
    + by eapply Hclose.
    + by eapply Hclose.
  - injection H as _ <-. by eapply file_write_appended.
Qed.

Lemma respects_handle_output_files output log_file :
  respects (files_appended (default [] log_file)) (handle_output output log_file).
Proof.
  unfold handle_output.
  destruct (str_truthy output); [|apply respects_ret, _].
  apply respects_bind; [apply _| |intros _].
  { apply (respects_preserves _ cwd_and_files); [apply files_appended_same|frame]. }
  destruct (opt_str_truthy log_file); [|apply respects_ret, _].
  apply respects_with_open_append_write.
Qed.

(** X2: whatever the outcome, [execute] deletes and truncates nothing: no
    directory disappears, every file other than the one that [log_file]
    names, under whatever name, is as it was, and that file has at most
    grown at its end. *)
Theorem execute_only_appends_to_log_file
    self script_path script_type args shell log_file fuel w o w' :
  execute self script_path script_type args shell log_file fuel w = (o, w') →
  files_appended (default [] log_file) w w' ∧ fs_dirs w ⊆ fs_dirs w'.
Proof.
  intros H. split.
  - eapply (respects_execute (files_appended (default [] log_file)) log_file);
      [..|exact H].
    + intros h w0. by apply files_appended_same.
    + intros l w0. by apply files_appended_same.
    + intros _ name.
      apply (respects_preserves _ cwd_and_files); [apply files_appended_same|frame].
    + intros cmd sh.
      apply (respects_preserves _ cwd_and_files); [apply files_appended_same|frame].
    + intros output. apply respects_handle_output_files.
  - eapply (respects_execute dirs_kept log_file); [..|exact H].
    + intros h w0. unfold dirs_kept. simpl. set_solver.
    + intros l w0. unfold dirs_kept. simpl. set_solver.
    + intros _ name. apply os_mkdir_dirs.
    + intros cmd sh. apply (respects_preserves _ fs_dirs); [|frame].
      intros w1 w2 Heq. unfold dirs_kept. by rewrite Heq.
    + intros output. apply (respects_preserves _ fs_dirs); [|frame].
      intros w1 w2 Heq. unfold dirs_kept. by rewrite Heq.
Qed.

(** X3: without a log file ([None] or the empty string), [execute] does
    nothing to the file system, whatever the outcome. *)
Theorem execute_without_log_file_leaves_fs
    self script_path script_type args shell log_file fuel w o w' :
  opt_str_truthy log_file = false →
  execute self script_path script_type args shell log_file fuel w = (o, w') →
  fs_dirs w' = fs_dirs w ∧ fs_files w' = fs_files w.
Proof.
  intros Hlog H.
  assert (∀ A (m : M A),
            preserves fs_dirs m → preserves fs_files m → respects fs_unchanged m)
    as Hp.
  { intros A m Hd Hf w1 o1 w2 Hm. split; [by eapply Hd|by eapply Hf]. }
  eapply (respects_execute fs_unchanged log_file); [..|exact H].
  - by intros h w0.
  - by intros l w0.
  - intros Hlog'. congruence.
  - intros cmd sh. apply Hp; frame.
  - intros output. unfold handle_output. rewrite Hlog.
    destruct (str_truthy output); [|apply respects_ret, _].
    apply respects_bind; [apply _|apply Hp; frame|intros _; apply respects_ret, _].
Qed.

(** ** The order of the effects *)

Lemma forwarding_same log_file w w' :
  trace w' = trace w → forwarding log_file w w'.
Proof. intros H. exists []. by rewrite H, app_nil_r. Qed.

Lemma forwarding_emit log_file ev :
  forward_event log_file ev = true → open_files [ev] = 0 →
  respects (forwarding log_file) (emit ev).
Proof.
  intros Hev Hopen w o w' H. unfold emit in H. injection H as _ <-.
  exists [ev]. simpl. by rewrite Hev.
Qed.

Lemma respects_print_forwarding log_file text :
  respects (forwarding log_file) (print text).
Proof.
  unfold print.
  apply respects_bind; [apply _| |intros _].
  { apply (respects_preserves _ trace); [apply forwarding_same|frame]. }
  apply respects_bind; [apply _| |intros _].
  { apply (respects_preserves _ trace); [apply forwarding_same|].
    intros w o w' H. by injection H as _ <-. }
  by apply forwarding_emit.
Qed.

(** Opening adds one event when it succeeds and none when it raises. *)
Lemma open_append_trace path w o w' :
  open_append path w = (o, w') →
  (∃ h, o = Ret h) ∧ trace w' = trace w ++ [EvOpen path]
  ∨ (∃ e, o = Raise e) ∧ trace w' = trace w.
Proof.
  intros H. destruct o as [h|e|].
  - apply open_append_spec in H as (_ & _ & Htr & _). left. eauto.
  - apply open_append_raise in H as ->. right. eauto.
  - pose proof (halts_open_append path w) as Hh. by rewrite H in Hh.
Qed.

Lemma file_write_trace f data w o w' :
  file_write f data w = (o, w') →
  o = Ret tt ∧ trace w' = trace w ++ [EvWrite (fh_name f) data]
  ∨ (∃ e, o = Raise e) ∧ trace w' = trace w.
Proof.
  unfold file_write, bind, syscall, emit, raise.
  destruct (utf8_encode data); [|intros [= <- <-]; right; eauto].
  destruct (io_fault w (clock w)); simpl; intros H; injection H as <- <-.
  - right. eauto.
  - by left.
Qed.

Lemma respects_with_open_forwarding log_file data :
  opt_str_truthy log_file = true →
  respects (forwarding log_file)
           (with_open_append_write (default [] log_file) data).
Proof.
  intros Hlog w o w' H. unfold with_open_append_write in H.
  assert (∀ p : pystr, bool_decide (p = p) = true) as Hdec.
  { intros p. by apply bool_decide_eq_true. }
  apply bind_inv in H as [(h & w1 & Hopen & H)|[(e & Hopen & _)|[Hopen _]]].
  - pose proof (open_append_handle _ _ _ _ Hopen) as Hname.
    apply open_append_trace in Hopen as [[_ Htr1]|[[? ?] _]]; [|done].
    destruct (file_write h data w1) as [[[]|e|] w2] eqn:Hw.
    + apply file_write_trace in Hw as [[_ Htr2]|[[? ?] _]]; [|done].
      unfold file_close, emit in H. injection H as _ <-.
      exists [EvOpen (default [] log_file); EvWrite (default [] log_file) data;
              EvClose (default [] log_file)].
      simpl. rewrite Htr2, Htr1, Hname, Hlog, !Hdec, <- !app_assoc. done.
    + apply file_write_trace in Hw as [[? _]|[_ Htr2]]; [done|].
      unfold bind, file_close, emit, raise in H. injection H as _ <-.
      exists [EvOpen (default [] log_file); EvClose (default [] log_file)].
      simpl. rewrite Htr2, Htr1, Hname, Hlog, !Hdec, <- !app_assoc. done.
    + apply file_write_trace in Hw as [[? _]|[[? ?] _]]; done.
  - apply open_append_trace in Hopen as [[[? ?] _]|[_ Htr1]]; [done|].
    by apply forwarding_same.
  - apply open_append_trace in Hopen as [[[? ?] _]|[[? ?] _]]; done.
Qed.

Lemma respects_handle_output_forwarding log_file output :
  respects (forwarding log_file) (handle_output output log_file).
Proof.
  unfold handle_output.
  destruct (str_truthy output); [|apply respects_ret, _].
  apply respects_bind; [apply _|apply respects_print_forwarding|intros _].
  destruct (opt_str_truthy log_file) eqn:Hlog; [|apply respects_ret, _].
  by apply respects_with_open_forwarding.
Qed.

Lemma drain_forwarding fuel process log_file :
  respects (forwarding log_file) (drain fuel process log_file).
Proof.
  apply respects_drain; [apply _..|].
  apply respects_handle_output_forwarding.
Qed.

(** A spawn adds its event when it succeeds and changes nothing when not. *)
Lemma subprocess_Popen_cases cmd shell w o w' :
  subprocess_Popen cmd shell w = (o, w') →
  (∃ p argv, o = Ret p ∧ heap w !! cmd = Some (ObjList argv)
             ∧ w' = set_trace (trace w ++ [EvSpawn argv shell (environ w)]) w)
  ∨ ((∃ e, o = Raise e) ∧ w' = w).
Proof.
  unfold subprocess_Popen, bind, list_items.
  destruct (heap w !! cmd) as [[argv|]|]; simpl.
  - destruct (os_spawn w argv shell (environ w)); intros H;
      injection H as <- <-; [left|right]; eauto.
  - intros H. injection H as <- <-. right. eauto.
  - intros H. injection H as <- <-. right. eauto.
Qed.

(** The trace of the lines 88-116, started on a command list. *)
Lemma spawn_and_drain_trace cmd shell log_file fuel w o w' :
  spawn_and_drain cmd shell log_file fuel w = (o, w') →
  ∃ mk rest,
    trace w' = trace w ++ (EvMkdir <$> mk) ++ rest
    ∧ (rest = []
       ∨ ∃ argv tail,
           heap w !! cmd = Some (ObjList argv)
           ∧ rest = EvSpawn argv shell (environ w) :: tail
           ∧ forallb (forward_event log_file) tail = true
           ∧ open_files tail = 0).
Proof.
  unfold spawn_and_drain. intros H.
  assert (∀ w1, trace w1 = trace w →
            ∃ mk rest, trace w1 = trace w ++ (EvMkdir <$> mk) ++ rest
                       ∧ (rest = []
                          ∨ ∃ argv tail,
                              heap w !! cmd = Some (ObjList argv)
                              ∧ rest = EvSpawn argv shell (environ w) :: tail
                              ∧ forallb (forward_event log_file) tail = true
                              ∧ open_files tail = 0)) as Hnone.
  { intros w1 ->. exists [], []. rewrite !app_nil_r. eauto. }
  apply bind_inv in H as [(argv & wb & Hargv & H)|[(e & Hargv & _)|[Hargv _]]];
    [|apply Hnone; by eapply (preserves_list_items trace)..].
  assert (wb = w ∧ heap w !! cmd = Some (ObjList argv)) as [-> Hcmd].
  { unfold list_items in Hargv.
    destruct (heap w !! cmd) as [[items|]|]; by simplify_eq. }
  apply bind_inv in H as [([] & wc & Hlog & H)|[(e & Hlog & _)|[Hlog _]]];
    [|done..].
  unfold logger_info, logger_log in Hlog. injection Hlog as <-.
  set (wc := set_log_records _ w) in H.
  set (prep := if opt_str_truthy log_file
               then os_makedirs (dirname (default [] log_file)) true
               else ret tt) in H.
  assert (only_mkdirs prep) as Hprep.
  { unfold prep. destruct (opt_str_truthy log_file).
    - apply only_mkdirs_os_makedirs_rec.
    - apply only_mkdirs_preserves. frame. }
  assert (preserves heap prep) as Hprep_heap by (unfold prep; frame).
  assert (preserves environ prep) as Hprep_env by (unfold prep; frame).
  assert (∀ o1 wd, prep wc = (o1, wd) →
            ∃ mk, trace wd = trace w ++ (EvMkdir <$> mk)
                  ∧ heap wd = heap w ∧ environ wd = environ w) as Hd.
  { intros o1 wd Hp. destruct (Hprep _ _ _ Hp) as [mk Hmk].
    exists mk. by rewrite Hmk, (Hprep_heap _ _ _ Hp), (Hprep_env _ _ _ Hp). }
  apply bind_inv in H as [([] & wd & Hmk & H)|[(e & Hmk & _)|[Hmk _]]].
  2,3: destruct (Hd _ _ Hmk) as (mk & Htr & _); exists mk, [];
       rewrite app_nil_r; eauto.
  destruct (Hd _ _ Hmk) as (mk & Htr & Hheap & Henv).
  apply bind_inv in H as [(p & we & Hsp & H)|[(e & Hsp & _)|[Hsp _]]].
  - apply subprocess_Popen_cases in Hsp
      as [(p' & argv' & _ & Hcmd' & ->)|[[? ?] _]]; [|done].
    rewrite Hheap, Hcmd in Hcmd'. injection Hcmd' as <-. rewrite Henv in H.
    apply drain_forwarding in H as (tail & Htail & Hfwd & Hbal).
    exists mk, (EvSpawn argv shell (environ w) :: tail). split.
    + rewrite Htail. simpl. rewrite Htr, <- !app_assoc. done.
    + right. eauto 10.
  - apply subprocess_Popen_cases in Hsp as [(? & ? & ? & _)|[_ ->]]; [done|].
    exists mk, []. rewrite app_nil_r. eauto.
  - apply subprocess_Popen_cases in Hsp as [(? & ? & ? & _)|[[? ?] _]]; done.
Qed.

(** The completion and the [except] clause do nothing to the outside
    world: the trace of [execute] is the trace of the lines 49-116. *)
Lemma execute_trace_of_run self script_path script_type args shell log_file fuel w o w' :
  execute self script_path script_type args shell log_file fuel w = (o, w') →
  ∃ o1 w1, execute_run self script_path args shell log_file fuel w = (o1, w1)
           ∧ trace w' = trace w1.
Proof.
  unfold execute, try_except, execute_body. intros H.
  destruct (execute_run self script_path args shell log_file fuel w)
    as [o1 w1] eqn:Hrun.
  exists o1, w1. split; [done|].
  assert (∀ e w2 o3 w3, execute_handler script_type e w2 = (o3, w3) →
            trace w3 = trace w2) as Hh.
  { intros e w2 o3 w3 Hx.
    by eapply (preserves_execute_handler trace); [intros ??|]. }
  destruct o1 as [p|e|].
  - rewrite (bind_Ret _ _ _ _ _ Hrun) in H.
    destruct (execute_complete p w1) as [[r|e|] w2] eqn:Hc.
    + injection H as _ <-.
      by eapply (preserves_execute_complete trace); [intros ??|].
    + apply Hh in H. rewrite H.
      by eapply (preserves_execute_complete trace); [intros ??|].
    + injection H as _ <-.
      by eapply (preserves_execute_complete trace); [intros ??|].
  - rewrite (bind_Raise _ _ _ _ _ Hrun) in H. simpl in H. by apply Hh in H.
  - unfold bind in H. rewrite Hrun in H. by injection H as _ <-.
Qed.


(** ** The logger's view of a call *)

Lemma verdict_level_of_return_code c :
  verdict_level (result_of_return_code c)
  = if bool_decide (c ≠ 0) then ERROR else INFO.
Proof. unfold verdict_level, result_of_return_code. simpl. by case_bool_decide. Qed.

(** X5: a call that returns has logged two lines: first the command, joined
    by spaces, at level INFO, before anything happens to the outside world,
    and last its verdict, at level ERROR exactly when the result carries an
    error message. *)
Theorem execute_logs_command_then_verdict
    w self d env script_path script_type args shell log_file fuel r w' :
  heap w !! self = Some (ObjScriptExecutor d env) →
  args_ok w args →
  execute self script_path script_type args shell log_file fuel w = (Ret r, w') →
  ∃ msg,
    log_records w' =
    log_records w
    ++ [(INFO, lit "Executing command: "
               ++ join (lit " ")
                    (spec_command d env script_path (args_items w args)));
        (verdict_level r, msg)].
Proof.
  intros Hself Hargs H.
  destruct (build_command_spec w self d env script_path args Hself Hargs)
    as (cmd & Hcmd & Hbuild).
  set (argv := spec_command d env script_path (args_items w args)) in *.
  set (wa := set_heap (<[cmd := ObjList argv]> (heap w)) w) in *.
  assert (list_items cmd wa = (Ret argv, wa)) as Hitems.
  { unfold list_items, wa. simpl. by rewrite lookup_insert_eq. }
  set (line := lit "Executing command: " ++ join (lit " ") argv).
  set (wc := set_log_records (log_records wa ++ [(INFO, line)]) wa).
  assert (logger_info line wa = (Ret tt, wc)) as Hlog by reflexivity.
  set (rest := (if opt_str_truthy log_file
                then os_makedirs (dirname (default [] log_file)) true
                else ret tt) ;;;
               process <- subprocess_Popen cmd shell ;;
               drain fuel process log_file).
  assert (preserves log_records rest) as Hrest by (unfold rest; frame).
  unfold execute, try_except, execute_body, execute_run in H.
  rewrite bind_assoc, (bind_Ret _ _ _ _ _ Hbuild) in H.
  unfold spawn_and_drain in H.
  rewrite bind_assoc, (bind_Ret _ _ _ _ _ Hitems) in H.
  rewrite bind_assoc, (bind_Ret _ _ _ _ _ Hlog) in H.
  fold rest in H.
  assert (log_records wc = log_records w ++ [(INFO, line)]) as Hwc by reflexivity.
  assert (∀ e w1, log_records w1 = log_records wc →
            execute_handler script_type e w1 = (Ret r, w') →
            ∃ msg, log_records w' =
                   log_records w ++ [(INFO, line); (verdict_level r, msg)])
    as Hhandler.
  { intros e w1 Hw1 Hh. rewrite execute_handler_spec in Hh.
    injection Hh as <- <-. eexists. simpl. rewrite Hw1, Hwc, <- app_assoc. done. }
  destruct (rest wc) as [[p|e|] w1] eqn:Hr.
  - rewrite (bind_Ret _ _ _ _ _ Hr) in H.
    pose proof (Hrest _ _ _ Hr) as Hw1.
    unfold execute_complete in H.
    destruct (Popen_wait p w1) as [[[c p']|e|] w2] eqn:Hwait.
    + assert (w2 = w1) as ->.
      { by eapply (preserves_Popen_wait id). }
      rewrite (bind_Ret _ _ _ _ _ Hwait) in H.
      unfold bind, logger_error, logger_info, logger_log, ret in H.
      destruct (bool_decide (c ≠ 0)) eqn:Hc; injection H as <- <-;
        eexists; rewrite verdict_level_of_return_code, Hc; simpl;
        rewrite Hw1, Hwc, <- app_assoc; done.
    + assert (w2 = w1) as ->.
      { by eapply (preserves_Popen_wait id). }
      rewrite (bind_Raise _ _ _ _ _ Hwait) in H. unfold Exception in H.
      by eapply Hhandler.
    + unfold bind in H. by rewrite Hwait in H.
  - rewrite (bind_Raise _ _ _ _ _ Hr) in H. unfold Exception in H.
    eapply Hhandler; [|exact H]. by eapply Hrest.
  - unfold bind in H. by rewrite Hr in H.
Qed.

(** ** From the environment to the command *)

Lemma ScriptExecutor_new_Ret w self w1 :
  ScriptExecutor_new w = (Ret self, w1) →
  heap w1 !! self
  = Some (ObjScriptExecutor (containerized w)
            (if containerized w then lit "docker-env"
             else default [] (environ w !! lit "CONDA_DEFAULT_ENV")))
  ∧ str_truthy (if containerized w then lit "docker-env"
                else default [] (environ w !! lit "CONDA_DEFAULT_ENV")) = true.
Proof.
  unfold ScriptExecutor_new, bind, os_getenv, os_path_exists, containerized.
  destruct (bool_decide _ || exists_in w _); simpl.
  - intros H. unfold new_object in H. injection H as <- <-. simpl.
    by rewrite lookup_insert_eq.
  - destruct (environ w !! lit "CONDA_DEFAULT_ENV") as [[|c s]|]; simpl;
      [done| |done].
    intros H. unfold new_object in H. injection H as <- <-. simpl.
    by rewrite lookup_insert_eq.
Qed.

(** X6: an executor that the constructor has returned builds its commands
    from the environment it was constructed in: directly when
    [IN_DOCKER_ENV] is ["1"] or [/.dockerenv] exists, and otherwise inside
    the environment named by [CONDA_DEFAULT_ENV], a name that is then not
    empty. *)
Theorem constructed_executor_builds_command w self w1 script_path args :
  ScriptExecutor_new w = (Ret self, w1) →
  args_ok w1 args →
  str_truthy (if containerized w then lit "docker-env"
              else default [] (environ w !! lit "CONDA_DEFAULT_ENV")) = true
  ∧ returned_list (build_command self script_path args w1)
    = Some (spec_command (containerized w)
              (if containerized w then lit "docker-env"
               else default [] (environ w !! lit "CONDA_DEFAULT_ENV"))
              script_path (args_items w1 args)).
Proof.
  intros Hnew Hargs.
  destruct (ScriptExecutor_new_Ret _ _ _ Hnew) as [Hself Henv].
  split; [done|]. by apply returned_list_build_command.
Qed.

(** ** Empty inputs *)

(** X7: an empty list of arguments gives the command that no list gives. *)
Theorem empty_args_list_is_no_args w self d env script_path (a : loc) :
  heap w !! self = Some (ObjScriptExecutor d env) →
  heap w !! a = Some (ObjList []) →
  returned_list (build_command self script_path (Some a) w)
  = returned_list (build_command self script_path None w).
Proof.
  intros Hself Ha.
  rewrite (returned_list_build_command w self d env script_path (Some a));
    [|done|by exists []].
  rewrite (returned_list_build_command w self d env script_path None);
    [|done|done].
  simpl. by rewrite Ha.
Qed.

Lemma bind_ext {A B} (m : M A) (k1 k2 : A → M B) w :
  (∀ a w1, k1 a w1 = k2 a w1) → bind m k1 w = bind m k2 w.
Proof. intros Hk. unfold bind. destruct (m w) as [[a|e|] w1]; [apply Hk|done..]. Qed.

Lemma handle_output_falsy output log_file w :
  opt_str_truthy log_file = false →
  handle_output output log_file w = handle_output output None w.
Proof. intros Hlog. unfold handle_output. by rewrite Hlog. Qed.

Lemma drain_falsy fuel : ∀ process log_file w,
  opt_str_truthy log_file = false →
  drain fuel process log_file w = drain fuel process None w.
Proof.
  induction fuel as [|fuel IH]; intros process log_file w Hlog; [done|].
  simpl. apply bind_ext. intros [output p1] w1.
  apply bind_ext. intros [stop p2] w2.
  destruct stop; [done|].
  unfold bind. rewrite handle_output_falsy by done.
  destruct (handle_output output None w2) as [[[]|e|] w3]; [by apply IH|done..].
Qed.

(** X8: an empty log file name is no log file: the call is the call with
    [log_file=None], in its result and in everything it does. *)
Theorem empty_log_file_is_no_log_file
    self script_path script_type args shell log_file fuel w :
  opt_str_truthy log_file = false →
  execute self script_path script_type args shell log_file fuel w
  = execute self script_path script_type args shell None fuel w.
Proof.
  intros Hlog.
  assert (execute_run self script_path args shell log_file fuel w
          = execute_run self script_path args shell None fuel w) as Hrun.
  { unfold execute_run. apply bind_ext. intros cmd wa.
    unfold spawn_and_drain. apply bind_ext. intros argv wb.
    apply bind_ext. intros [] wc. rewrite Hlog. simpl.
    apply bind_ext. intros [] wd. apply bind_ext. intros p we.
    by apply drain_falsy. }
  unfold execute, try_except, execute_body, bind. by rewrite Hrun.
Qed.

(** ** Instances of the further properties *)

(** [execute_returns] in [docker_world]: the child ends after one line. *)
Lemma execute_returns_witness :
  (∀ argv sh env child,
     os_spawn docker_world argv sh env = Ok child → child_ends child 1 0)
  ∧ (1 + 0 < 3)%nat
  ∧ ∃ r w',
      execute 0 (lit "job.py") (lit "demo") (Some 1%nat) false None 3 docker_world
      = (Ret r, w').
Proof.
  assert (∀ argv sh env child,
            os_spawn docker_world argv sh env = Ok child → child_ends child 1 0)
    as H1.
  { intros argv sh env child H. injection H as <-. split.
    - intros k Hk. simpl. destruct k as [|k]; [lia|reflexivity].
    - intros j _. exists 0. reflexivity. }
  assert (1 + 0 < 3)%nat as H2 by lia.
  split; [exact H1|]. split; [exact H2|].
  exact (execute_returns 1 0 0 (lit "job.py") (lit "demo") (Some 1%nat) false None 3
           docker_world H1 H2).
Defined.

(** [empty_log_file_is_no_log_file] in [docker_world], for [log_file=""]. *)
Lemma empty_log_file_is_no_log_file_witness :
  opt_str_truthy (Some []) = false
  ∧ execute 0 (lit "job.py") (lit "demo") (Some 1%nat) false (Some []) 3 docker_world
    = execute 0 (lit "job.py") (lit "demo") (Some 1%nat) false None 3 docker_world.
Proof.
  assert (opt_str_truthy (Some []) = false) as H1 by reflexivity.
  split; [exact H1|].
  exact (empty_log_file_is_no_log_file 0 (lit "job.py") (lit "demo") (Some 1%nat)
           false (Some []) 3 docker_world H1).
Defined.

(** [empty_args_list_is_no_args] in [empty_args_world]. *)
Lemma empty_args_list_is_no_args_witness :
  heap empty_args_world !! 0%nat = Some (ObjScriptExecutor true (lit "docker-env"))
  ∧ heap empty_args_world !! 2%nat = Some (ObjList [])
  ∧ returned_list (build_command 0 (lit "job.py") (Some 2%nat) empty_args_world)
    = returned_list (build_command 0 (lit "job.py") None empty_args_world).
Proof.
  assert (heap empty_args_world !! 0%nat
          = Some (ObjScriptExecutor true (lit "docker-env"))) as H1 by reflexivity.
  assert (heap empty_args_world !! 2%nat = Some (ObjList [])) as H2 by reflexivity.
  split; [exact H1|]. split; [exact H2|].
  exact (empty_args_list_is_no_args empty_args_world 0 true (lit "docker-env")
           (lit "job.py") 2%nat H1 H2).
Defined.

(** [execute_without_log_file_leaves_fs] in [docker_world]. *)
Lemma execute_without_log_file_leaves_fs_witness :
  opt_str_truthy None = false
  ∧ ∃ o w',
      execute 0 (lit "job.py") (lit "demo") (Some 1%nat) false None 3 docker_world
      = (o, w')
      ∧ fs_dirs w' = fs_dirs docker_world ∧ fs_files w' = fs_files docker_world.
Proof.
  assert (opt_str_truthy None = false) as H1 by reflexivity.
  assert (∃ o w',
            execute 0 (lit "job.py") (lit "demo") (Some 1%nat) false None 3
              docker_world = (o, w')) as (o & w' & H2).
  { eexists _, _. vm_compute. reflexivity. }
  split; [exact H1|]. exists o, w'. split; [exact H2|].
  exact (execute_without_log_file_leaves_fs 0 (lit "job.py") (lit "demo")
           (Some 1%nat) false None 3 docker_world o w' H1 H2).
Defined.

(** [execute_only_appends_to_log_file] in [docker_world], with the log file
    [logs/run.log]. *)
Lemma execute_only_appends_to_log_file_witness :
  ∃ o w',
    execute 0 (lit "job.py") (lit "demo") None false
      (Some (lit "./logs//run.log")) 3 used_world = (o, w')
    ∧ files_appended (default [] (Some (lit "./logs//run.log"))) used_world w'
    ∧ fs_dirs used_world ⊆ fs_dirs w'.
Proof.
  assert (∃ o w',
            execute 0 (lit "job.py") (lit "demo") None false
              (Some (lit "./logs//run.log")) 3 used_world = (o, w'))
    as (o & w' & H).
  { eexists _, _. vm_compute. reflexivity. }
  exists o, w'. split; [exact H|].
  exact (execute_only_appends_to_log_file 0 (lit "job.py") (lit "demo") None
           false (Some (lit "./logs//run.log")) 3 used_world o w' H).
Defined.


(** [execute_logs_command_then_verdict] in [conda_world], where the child
    exits 7. *)
Lemma execute_logs_command_then_verdict_witness :
  heap conda_world !! 0%nat = Some (ObjScriptExecutor false (lit "lpm"))
  ∧ args_ok conda_world (Some 1%nat)
  ∧ ∃ r w',
      execute 0 (lit "run.sh") (lit "demo") (Some 1%nat) false None 3 conda_world
      = (Ret r, w')
      ∧ ∃ msg,
          log_records w' =
          log_records conda_world
          ++ [(INFO, lit "Executing command: "
                     ++ join (lit " ")
                          (spec_command false (lit "lpm") (lit "run.sh")
                             (args_items conda_world (Some 1%nat))));
              (verdict_level r, msg)].
Proof.
  assert (heap conda_world !! 0%nat = Some (ObjScriptExecutor false (lit "lpm")))
    as H1 by reflexivity.
  assert (args_ok conda_world (Some 1%nat)) as H2.
  { exists [lit "--x"; lit "1"]. reflexivity. }
  assert (∃ r w',
            execute 0 (lit "run.sh") (lit "demo") (Some 1%nat) false None 3
              conda_world = (Ret r, w')) as (r & w' & H3).
  { eexists _, _. vm_compute. reflexivity. }
  split; [exact H1|]. split; [exact H2|]. exists r, w'. split; [exact H3|].
  exact (execute_logs_command_then_verdict conda_world 0 false (lit "lpm")
           (lit "run.sh") (lit "demo") (Some 1%nat) false None 3 r w' H1 H2 H3).
Defined.

(** [constructed_executor_builds_command] in [fresh_conda_world]. *)
Lemma constructed_executor_builds_command_witness :
  ∃ self w1,
    ScriptExecutor_new fresh_conda_world = (Ret self, w1)
    ∧ args_ok w1 None
    ∧ str_truthy (if containerized fresh_conda_world then lit "docker-env"
                  else default [] (environ fresh_conda_world
                                   !! lit "CONDA_DEFAULT_ENV")) = true
    ∧ returned_list (build_command self (lit "train.py") None w1)
      = Some (spec_command (containerized fresh_conda_world)
                (if containerized fresh_conda_world then lit "docker-env"
                 else default [] (environ fresh_conda_world
                                  !! lit "CONDA_DEFAULT_ENV"))
                (lit "train.py") (args_items w1 None)).
Proof.
  assert (∃ self w1, ScriptExecutor_new fresh_conda_world = (Ret self, w1))
    as (self & w1 & H1).
  { eexists _, _. vm_compute. reflexivity. }
  assert (args_ok w1 None) as H2 by exact I.
  exists self, w1. split; [exact H1|]. split; [exact H2|].
  exact (constructed_executor_builds_command fresh_conda_world self w1
           (lit "train.py") None H1 H2).
Defined.

(** The command of an executor constructed in [fresh_conda_world]. *)
Example scenario_constructed_in_conda :
  let r := ScriptExecutor_new fresh_conda_world in
  returned_list
    (match r.1 with
     | Ret self => build_command self (lit "train.py") None r.2
     | _ => raise RecursionError r.2
     end)
  = Some [lit "conda"; lit "run"; lit "-n"; lit "lpm"; lit "python"; lit "-u";
          lit "train.py"].
Proof. by vm_compute. Qed.
